(** * Tile rearrangement (qualifier.py): validation and the split / permute /
    combine pipeline, as a shallow embedding.

    Python integers are unbounded, so they are [Z].  Python's [%] and [//]
    on integers round towards minus infinity and the remainder takes the
    sign of the divisor, which is what [Z.modulo] and [Z.div] do; the one
    difference is a zero divisor, where Python raises [ZeroDivisionError].
    Exceptions are values of an error monad. *)

From Stdlib Require Import ZArith Lia Ascii String.
From stdpp Require Import base gmap sets list strings.

Local Open Scope Z_scope.

(** ** Exceptions and the error monad *)

Inductive exn : Type :=
  | AssertionError
  | ZeroDivisionError
  | IndexError
  | FileNotFoundError
  | ValueError (msg : string)
  | OSError (msg : string).

Inductive result (A : Type) : Type :=
  | Ok (a : A)
  | Raise (e : exn).
Arguments Ok {A} a.
Arguments Raise {A} e.

#[global] Instance result_ret : MRet result := λ A a, Ok a.
#[global] Instance result_bind : MBind result := λ A B k c,
  match c with
  | Ok a => k a
  | Raise e => Raise e
  end.

(** A list comprehension whose element expression may raise. *)
Fixpoint rmap {A B} (f : A → result B) (l : list A) : result (list B) :=
  match l with
  | [] => Ok []
  | a :: l' => b ← f a; bs ← rmap f l'; Ok (b :: bs)
  end.

(** A [for] loop threading the mutated object through the body. *)
Fixpoint rfold {A S} (f : S → A → result S) (s : S) (l : list A) : result S :=
  match l with
  | [] => Ok s
  | a :: l' => s' ← f s a; rfold f s' l'
  end.

(** ** Python primitives *)

Definition py_assert (b : bool) : result unit :=
  if b then Ok tt else Raise AssertionError.

(** [a % b] *)
Definition py_mod (a b : Z) : result Z :=
  if b =? 0 then Raise ZeroDivisionError else Ok (a mod b).

(** [a // b] *)
Definition py_floordiv (a b : Z) : result Z :=
  if b =? 0 then Raise ZeroDivisionError else Ok (a / b).

(** Number of elements of [range(start, stop, step)] for [step ≠ 0]. *)
Definition range_len (start stop step : Z) : nat :=
  if 0 <? step then Z.to_nat ((stop - start + step - 1) / step)
  else Z.to_nat ((start - stop - step - 1) / (- step)).

Definition range_list (start stop step : Z) : list Z :=
  (λ k : nat, start + Z.of_nat k * step) <$> seq 0 (range_len start stop step).

(** [range(start, stop, step)] *)
Definition py_range (start stop step : Z) : result (list Z) :=
  if step =? 0 then Raise (ValueError "range() arg 3 must not be zero")
  else Ok (range_list start stop step).

(** [len(l)] *)
Definition len {A} (l : list A) : Z := Z.of_nat (length l).

(** [range(n)] *)
Definition range1 (n : Z) : list Z := range_list 0 n 1.

(** [set(l)] *)
Definition py_set (l : list Z) : gset Z := list_to_set l.

(** [l[i]]: negative indices count from the end. *)
Definition py_index {A} (l : list A) (i : Z) : result A :=
  let j := if i <? 0 then i + len l else i in
  if j <? 0 then Raise IndexError
  else match l !! Z.to_nat j with
       | Some a => Ok a
       | None => Raise IndexError
       end.

(** ** valid_input *)

(** The body of the [try] block. *)
Definition valid_input_try (image_size tile_size : Z * Z) (ordering : list Z)
  : result bool :=
  r0 ← py_mod image_size.1 tile_size.1;
  py_assert (r0 =? 0);;
  r1 ← py_mod image_size.2 tile_size.2;
  py_assert (r1 =? 0);;
  size_a ← py_floordiv image_size.1 tile_size.1;
  size_b ← py_floordiv image_size.2 tile_size.2;
  py_assert (size_a * size_b =? len ordering);;
  py_assert (bool_decide (py_set ordering = py_set (range1 (len ordering))));;
  Ok true.

(** [try: ... except AssertionError: return False]; any other exception
    propagates. *)
Definition valid_input (image_size tile_size : Z * Z) (ordering : list Z)
  : result bool :=
  match valid_input_try image_size tile_size ordering with
  | Raise AssertionError => Ok false
  | r => r
  end.

(** ** The imaging library

    An image has a colour mode, a size [(width, height)] and one value per
    pixel: the value the image stores there, whatever the mode makes of it.
    Only the pixels inside the size are observable. *)

Definition pixel := Z.

Record Image : Type := mkImage {
  mode : string;
  size : Z * Z;
  data : Z → Z → pixel
}.

Definition in_bounds (img : Image) (x y : Z) : bool :=
  (0 <=? x) && (x <? (size img).1) && (0 <=? y) && (y <? (size img).2).

(** [Image.new(mode, size)]: a black image. *)
Definition Image_new (image_mode : string) (sz : Z * Z) : result Image :=
  if (sz.1 <? 0) || (sz.2 <? 0)
  then Raise (ValueError "Width and height must be >= 0")
  else Ok {| mode := image_mode; size := sz; data := λ _ _, 0 |}.

(** [img.crop((x0, y0, x1, y1))], the box being (left, upper, right, lower): the region outside the source
    is black. *)
Definition crop (img : Image) (box : Z * Z * Z * Z) : result Image :=
  let '(x0, y0, x1, y1) := box in
  if x1 <? x0
  then Raise (ValueError "Coordinate 'right' is less than 'left'")
  else if y1 <? y0
  then Raise (ValueError "Coordinate 'lower' is less than 'upper'")
  else Ok {| mode := mode img;
             size := (x1 - x0, y1 - y0);
             data := λ i j, if in_bounds img (x0 + i) (y0 + j)
                            then data img (x0 + i) (y0 + j) else 0 |}.

(** [img.paste(tile, (x, y))]: [img] after the in-place update; the pasted
    region is clipped to [img]. *)
Definition paste (img tile : Image) (pos : Z * Z) : Image :=
  let '(x, y) := pos in
  {| mode := mode img;
     size := size img;
     data := λ i j, if in_bounds img i j && in_bounds tile (i - x) (j - y)
                    then data tile (i - x) (j - y) else data img i j |}.

(** [enumerate(l, start)] *)
Fixpoint enumerate_from {A} (start : Z) (l : list A) : list (Z * A) :=
  match l with
  | [] => []
  | a :: l' => (start, a) :: enumerate_from (start + 1) l'
  end.

Definition enumerate {A} (l : list A) : list (Z * A) := enumerate_from 0 l.

(** ** split_into_tiles, combine_tiles *)

Definition split_into_tiles (img : Image) (dx dy : Z) : result (list Image) :=
  let '(width, height) := size img in
  ys ← py_range 0 height dy;
  rows ← rmap (λ y,
            xs ← py_range 0 width dx;
            rmap (λ x, crop img (x, y, x + dx, y + dy)) xs) ys;
  Ok (concat rows).

Definition combine_tiles (tiles : list Image) (width_count height_count dx dy : Z)
    (image_mode : string) : result Image :=
  img ← Image_new image_mode (dx * width_count, dy * height_count);
  rfold (λ img '(i, tile),
           c ← py_mod i width_count;
           let x := c * dx in
           r ← py_floordiv i width_count;
           let y := r * dy in
           Ok (paste img tile (x, y)))
        img (enumerate tiles).

(** ** rearrange_tiles *)

(** Line 51, [[tiles[index] for index in ordering]]. *)
Definition sorted_tiles {A} (tiles : list A) (ordering : list Z) : result (list A) :=
  rmap (λ index, py_index tiles index) ordering.

Definition InvalidArrangement : exn :=
  ValueError "The tile size or ordering are not valid for the given image".

(** The files the process can see: a path holds an image or nothing. *)
Abbreviation FS := (gmap string Image).

(** [Image.open(path)] *)
Definition Image_open (fs : FS) (path : string) : result Image :=
  match fs !! path with
  | Some img => Ok img
  | None => Raise FileNotFoundError
  end.

(** What [img.save(path)] comes to.  The library picks an encoder by the
    extension of [path]; which extensions it knows, which modes an encoder
    takes and what a written file decodes to are the library's, not this
    program's, so they are a parameter:
    - [Saved stored]: the file is written and [Image.open] will read
      [stored] from it ([stored] is [img] itself only for an encoder that is
      exact for the mode of [img]);
    - [UnknownExtension ext]: no encoder is registered for [ext];
    - [CannotOpen msg]: the destination cannot be opened for writing;
    - [EncoderError msg]: the encoder refuses the image after the
      destination has been opened for writing. *)
Inductive save_outcome : Type :=
  | Saved (stored : Image)
  | UnknownExtension (ext : string)
  | CannotOpen (msg : string)
  | EncoderError (msg : string).

Class Encoders : Type := encode : Image → string → save_outcome.

(** [img.save(path)]: the file system it leaves and how it ends.  An
    unknown extension is found before the destination is touched; after an
    encoder's error the destination holds no image. *)
Definition Image_save `{Encoders} (fs : FS) (img : Image) (path : string)
  : FS * result unit :=
  match encode img path with
  | Saved stored => (<[path := stored]> fs, Ok tt)
  | UnknownExtension ext =>
      (fs, Raise (ValueError ("unknown file extension: " +:+ ext)))
  | CannotOpen msg => (fs, Raise (OSError msg))
  | EncoderError msg => (delete path fs, Raise (OSError msg))
  end.

(** The body of the [with] block up to the call of [save]: the image to be
    saved. *)
Definition rearrange_tiles_new_img (img : Image) (tile_size : Z * Z)
    (ordering : list Z) : result Image :=
  let image_size := size img in
  let image_mode := mode img in
  ok ← valid_input image_size tile_size ordering;
  if negb ok then Raise InvalidArrangement
  else
    let '(dx, dy) := tile_size in
    tiles ← split_into_tiles img dx dy;
    sorted ← sorted_tiles tiles ordering;
    width_count ← py_floordiv image_size.1 dx;
    height_count ← py_floordiv image_size.2 dy;
    combine_tiles sorted width_count height_count dx dy image_mode.

(** [rearrange_tiles] returns the file system it leaves behind and either
    [None] (as [tt]) or the exception it raised. *)
Definition rearrange_tiles `{Encoders} (fs : FS) (image_path : string)
    (tile_size : Z * Z) (ordering : list Z) (out_path : string)
  : FS * result unit :=
  match Image_open fs image_path with
  | Raise e => (fs, Raise e)
  | Ok img =>
      match rearrange_tiles_new_img img tile_size ordering with
      | Raise e => (fs, Raise e)
      | Ok new_img => Image_save fs new_img out_path
      end
  end.

(** * Specification vocabulary *)

(** What the ordering must be: every value of [0 .. len - 1], once each. *)
Definition is_permutation (ordering : list Z) : Prop :=
  NoDup ordering ∧ ∀ v, v ∈ ordering ↔ 0 ≤ v < len ordering.

(** The four conditions on an arrangement. *)
Definition arrangement_ok (image_size tile_size : Z * Z) (ordering : list Z) : Prop :=
  (tile_size.1 | image_size.1) ∧ (tile_size.2 | image_size.2) ∧
  len ordering = (image_size.1 / tile_size.1) * (image_size.2 / tile_size.2) ∧
  is_permutation ordering.

(** PIL never builds an image of negative width or height. *)
Definition wf_image (img : Image) : Prop := 0 ≤ (size img).1 ∧ 0 ≤ (size img).2.

(** The grid cell with index [k], row-major, in a grid [width_count] wide:
    its top-left pixel. *)
Definition cell_origin (width_count dx dy k : Z) : Z * Z :=
  ((k mod width_count) * dx, (k / width_count) * dy).

(** The index, row-major, of the grid cell that holds pixel [(X, Y)]. *)
Definition cell_index (width_count dx dy X Y : Z) : Z :=
  (Y / dy) * width_count + X / dx.

(** The tile cut with its top-left corner at [(x, y)]. *)
Definition tile_at (img : Image) (dx dy : Z) (pos : Z * Z) : Image :=
  {| mode := mode img;
     size := (dx, dy);
     data := λ i j, if in_bounds img (pos.1 + i) (pos.2 + j)
                    then data img (pos.1 + i) (pos.2 + j) else 0 |}.

(** The tile that the loop of [combine_tiles], started at index [start],
    leaves on the cell of index [c]. *)
Definition tile_on {A} (tiles : list A) (start c : Z) : option A :=
  if start <=? c then tiles !! Z.to_nat (c - start) else None.

(** The body of the loop of [combine_tiles]. *)
Definition paste_step (width_count dx dy : Z) (img : Image) (it : Z * Image)
  : result Image :=
  let '(i, tile) := it in
  c ← py_mod i width_count;
  let x := c * dx in
  r ← py_floordiv i width_count;
  let y := r * dy in
  Ok (paste img tile (x, y)).

(** The computation ends otherwise than by the validation failure. *)
Definition not_invalid {A} (r : result A) : Prop := r ≠ Raise InvalidArrangement.

(** The number of steps of [step] needed to cover [extent]: the quotient
    rounded up. *)
Definition steps_to_cover (extent step : Z) : Z := (extent + step - 1) / step.

(** The largest box, in pixels, that the library's [crop] takes. *)
Definition max_crop_pixels : Z := 178956970.

(** ** A sample of encoders *)

Definition ascii_lower (a : ascii) : ascii :=
  let n := nat_of_ascii a in
  if (65 <=? n)%nat && (n <=? 90)%nat then ascii_of_nat (n + 32) else a.

(** The index of the last [c] in [l], counting from [i]. *)
Fixpoint last_index (c : ascii) (l : list ascii) (i : nat) (found : option nat)
  : option nat :=
  match l with
  | [] => found
  | a :: l' => last_index c l' (S i) (if Ascii.eqb a c then Some i else found)
  end.

(** [os.path.splitext(path)[1].lower()]: from the last dot of the last
    component of the path, unless only dots come before it there. *)
Definition extension (path : string) : string :=
  let l := list_ascii_of_string path in
  match last_index "." l 0 None with
  | None => ""
  | Some dot =>
      let start := match last_index "/" l 0 None with
                   | Some sep => S sep
                   | None => 0%nat
                   end in
      if (start <=? dot)%nat
         && negb (forallb (Ascii.eqb ".") (take (dot - start) (drop start l)))
      then string_of_list_ascii (ascii_lower <$> drop dot l)
      else ""
  end.

(** One value of the parameter, to run the code on the sample images: a
    writable file system and the PNG encoder alone, on the modes it stores as
    they are.  Any other extension is unknown to it.  The sample leaves out
    the 16 and 32 bit modes, which the library's PNG encoder writes in its
    own way, and refuses them like the modes PNG cannot hold.  The theorems
    on [rearrange_tiles] are proved for every value of the parameter. *)
Definition png_encoder : Encoders := λ img path,
  if bool_decide (extension path = ".png")
  then if bool_decide (mode img ∈ ["1"; "L"; "LA"; "P"; "RGB"; "RGBA"])
       then Saved img
       else EncoderError ("cannot write mode " +:+ mode img +:+ " as PNG")
  else UnknownExtension (extension path).

#[global] Existing Instance png_encoder.

(** ** Sample images *)

(** A 4 by 4 image whose pixel at [(x, y)] is [10 * y + x]. *)
Definition img44 : Image :=
  {| mode := "L"; size := (4, 4); data := λ x y, 10 * y + x |}.

(** A 5 by 4 image, which tiles of 2 by 2 do not divide. *)
Definition img54 : Image :=
  {| mode := "RGB"; size := (5, 4); data := λ x y, 10 * y + x |}.

(** The pixels of an image, row by row. *)
Definition pixels (img : Image) : list (list pixel) :=
  (λ y, (λ x, data img x y) <$> range1 (size img).1) <$> range1 (size img).2.

(** The pixels of the image a computation returns, if it returns one. *)
Definition pixels_of (r : result Image) : list (list pixel) :=
  match r with Ok img => pixels img | Raise _ => [] end.

(** * Running the code on small inputs *)

Example valid_input_ex1 : valid_input (4, 4) (2, 2) [3; 2; 1; 0] = Ok true.
Proof. vm_compute. reflexivity. Qed.

Example valid_input_ex2 : valid_input (5, 4) (2, 2) [3; 2; 1; 0] = Ok false.
Proof. vm_compute. reflexivity. Qed.

Example valid_input_ex3 : valid_input (4, 4) (2, 2) [3; 2; 2; 0] = Ok false.
Proof. vm_compute. reflexivity. Qed.

Example valid_input_ex4 : valid_input (4, 4) (0, 2) [3; 2; 2; 0] = Raise ZeroDivisionError.
Proof. vm_compute. reflexivity. Qed.

Example range_ex : range_list 0 7 3 = [0; 3; 6] ∧ range_list 0 4 (-2) = [] ∧ range_list 5 0 (-2) = [5; 3; 1].
Proof. vm_compute. done. Qed.

Example split_ex :
  (pixels <$> (default [] (match split_into_tiles img44 2 2 with Ok l => Some l | _ => None end)))
  = [ [[0; 1]; [10; 11]]; [[2; 3]; [12; 13]]; [[20; 21]; [30; 31]]; [[22; 23]; [32; 33]] ].
Proof. vm_compute. reflexivity. Qed.

Example rearrange_ex :
  pixels_of (rearrange_tiles_new_img img44 (2, 2) [3; 2; 1; 0])
  = [ [22; 23; 20; 21]; [32; 33; 30; 31]; [2; 3; 0; 1]; [12; 13; 10; 11] ].
Proof. vm_compute. reflexivity. Qed.

(** A negative tile size passes [valid_input], but the split then yields no
    tile and line 51 raises. *)
Example rearrange_neg_ex :
  rearrange_tiles_new_img img44 (-2, -2) [0; 1; 2; 3] = Raise IndexError.
Proof. vm_compute. reflexivity. Qed.

(** * Properties *)

(** ** The validator *)

Lemma range1_seq n : range1 n = Z.of_nat <$> seq 0 (Z.to_nat n).
Proof.
  unfold range1, range_list, range_len. simpl.
  replace (n - 0 + 1 - 1) with n by lia. rewrite Z.div_1_r.
  apply list_fmap_ext. intros _ k _. lia.
Qed.

Lemma length_range1 n : length (range1 n) = Z.to_nat n.
Proof. by rewrite range1_seq, length_fmap, length_seq. Qed.

Lemma elem_of_range1 n v : v ∈ range1 n ↔ 0 ≤ v < n.
Proof.
  rewrite range1_seq, list_elem_of_fmap. split.
  - intros (k & -> & Hk). apply elem_of_seq in Hk. lia.
  - intros Hv. exists (Z.to_nat v). split; [lia|]. apply elem_of_seq. lia.
Qed.

Lemma NoDup_range1 n : NoDup (range1 n).
Proof.
  rewrite range1_seq. apply NoDup_fmap_2; [|apply NoDup_seq].
  intros a b. lia.
Qed.

(** The comparison of sets on line 22 decides [is_permutation]. *)
Lemma set_eq_is_permutation ordering :
  py_set ordering = py_set (range1 (len ordering)) ↔ is_permutation ordering.
Proof.
  unfold py_set, is_permutation. split.
  - intros Heq.
    assert (Hel : ∀ v, v ∈ ordering ↔ 0 ≤ v < len ordering).
    { intros v. rewrite <- elem_of_range1.
      rewrite <- (elem_of_list_to_set (C := gset Z) v ordering), Heq.
      apply elem_of_list_to_set. }
    split; [|done].
    assert (Hsub : range1 (len ordering) ⊆+ ordering).
    { apply NoDup_submseteq; [apply NoDup_range1|].
      intros v Hv. apply Hel, elem_of_range1, Hv. }
    apply submseteq_length_Permutation in Hsub.
    + rewrite <- Hsub. apply NoDup_range1.
    + rewrite length_range1. unfold len. lia.
  - intros [_ Hel]. apply set_eq. intros v.
    rewrite !elem_of_list_to_set, elem_of_range1. apply Hel.
Qed.

Lemma mod_0_divide a b : b ≠ 0 → a mod b = 0 ↔ (b | a).
Proof. apply Z.mod_divide. Qed.

(** For tile sizes without a zero component, [valid_input] returns, and
    returns [True] exactly on the arrangements that are in order; [False]
    comes from a failed assertion. *)
Lemma valid_input_nonzero image_size tile_size ordering :
  tile_size.1 ≠ 0 → tile_size.2 ≠ 0 →
  (valid_input image_size tile_size ordering = Ok true ↔
     arrangement_ok image_size tile_size ordering) ∧
  (¬ arrangement_ok image_size tile_size ordering →
     valid_input_try image_size tile_size ordering = Raise AssertionError ∧
     valid_input image_size tile_size ordering = Ok false).
Proof.
  destruct image_size as [iw ih], tile_size as [tw th]. simpl. intros Hw Hh.
  unfold arrangement_ok, valid_input, valid_input_try, py_mod, py_floordiv. simpl.
  rewrite <- !mod_0_divide by done.
  rewrite (proj2 (Z.eqb_neq tw 0) Hw), (proj2 (Z.eqb_neq th 0) Hh). simpl.
  destruct (Z.eqb_spec (iw mod tw) 0) as [H1|H1]; simpl;
    [|split; [split; [done|tauto] | done]].
  destruct (Z.eqb_spec (ih mod th) 0) as [H2|H2]; simpl;
    [|split; [split; [done|tauto] | done]].
  destruct (Z.eqb_spec (iw / tw * (ih / th)) (len ordering)) as [H3|H3]; simpl;
    [|split; [split; [done|intros (_ & _ & ? & _); congruence] | done]].
  rewrite <- set_eq_is_permutation.
  case_bool_decide as H4; simpl; [|split; [split; [done|tauto] | done]].
  split; [done|]. intros []. done.
Qed.

(** A zero tile width or height makes the first [%] on that axis raise;
    the [except] clause does not catch it. *)
Lemma valid_input_true_nonzero image_size tile_size ordering :
  valid_input image_size tile_size ordering = Ok true →
  tile_size.1 ≠ 0 ∧ tile_size.2 ≠ 0.
Proof.
  destruct image_size as [iw ih], tile_size as [tw th]. simpl.
  unfold valid_input, valid_input_try, py_mod, py_floordiv. simpl.
  destruct (Z.eqb_spec tw 0); [done|]. simpl.
  destruct (iw mod tw =? 0); [|done]. simpl.
  destruct (Z.eqb_spec th 0); done.
Qed.

Lemma valid_input_true_iff image_size tile_size ordering :
  valid_input image_size tile_size ordering = Ok true ↔
  tile_size.1 ≠ 0 ∧ tile_size.2 ≠ 0 ∧ arrangement_ok image_size tile_size ordering.
Proof.
  split.
  - intros Hv. destruct (valid_input_true_nonzero _ _ _ Hv) as [Hw Hh].
    split_and!; [done..|]. by apply valid_input_nonzero.
  - intros (Hw & Hh & Hok). by apply valid_input_nonzero.
Qed.

(** With a zero tile height the call raises as well, once the widths have
    passed their assertion. *)
Lemma valid_input_zero_tile_height_raises image_size w ordering :
  w ≠ 0 → image_size.1 mod w = 0 →
  valid_input image_size (w, 0) ordering = Raise ZeroDivisionError.
Proof.
  destruct image_size as [iw ih]. simpl. intros Hw Hm.
  unfold valid_input, valid_input_try, py_mod. simpl.
  rewrite (proj2 (Z.eqb_neq w 0) Hw). simpl. rewrite Hm. reflexivity.
Qed.

(** C1, at the input where the code leaves the claim: image size (4, 4),
    tile size (0, 2) and the ordering [0, 0], which has the wrong length
    and a duplicate.  The call does not yield [False]: the [%] by the zero
    tile width raises [ZeroDivisionError], which [except AssertionError]
    lets through. *)
Theorem valid_input_mismatch_zero_tile_raises :
  ¬ is_permutation [0; 0] ∧
  len [0; 0] ≠ 4 ∧
  valid_input (4, 4) (0, 2) [0; 0] = Raise ZeroDivisionError.
Proof.
  split_and!.
  - intros [Hnd _]. apply NoDup_cons in Hnd as [Hin _]. apply Hin. left.
  - discriminate.
  - reflexivity.
Qed.

(** C3, against the claim: for every image size, tile height and ordering,
    a call with tile width zero does not return at all; it raises
    [ZeroDivisionError] from the first [%]. *)
Theorem valid_input_zero_tile_width_raises image_size h ordering :
  valid_input image_size (0, h) ordering = Raise ZeroDivisionError.
Proof. destruct image_size. reflexivity. Qed.

(** C9 as stated fails: the image size (0, 0) with tile size (2, 2) and the
    empty ordering is accepted. *)
Lemma valid_input_accepts_empty_image :
  ¬ (∀ image_size tile_size ordering,
       image_size.1 = 0 ∨ image_size.2 = 0 →
       0 < tile_size.1 → 0 < tile_size.2 →
       valid_input image_size tile_size ordering = Ok false).
Proof.
  intros H. specialize (H (0, 0) (2, 2) []). simpl in H.
  assert (Hf : valid_input (0, 0) (2, 2) [] = Ok false) by (apply H; lia).
  vm_compute in Hf. discriminate.
Qed.

(** C9, amended: for an image size with a zero dimension and a positive tile
    size, every non-empty ordering is rejected, through a caught assertion
    failure; the empty ordering is accepted exactly when the tile size
    divides both dimensions. *)
Theorem valid_input_zero_image iw ih tw th ordering :
  iw = 0 ∨ ih = 0 → 0 < tw → 0 < th →
  (ordering ≠ [] →
     valid_input_try (iw, ih) (tw, th) ordering = Raise AssertionError ∧
     valid_input (iw, ih) (tw, th) ordering = Ok false) ∧
  (ordering = [] →
     valid_input (iw, ih) (tw, th) ordering =
       Ok (bool_decide (iw mod tw = 0 ∧ ih mod th = 0))).
Proof.
  intros Hz Hw Hh.
  destruct (valid_input_nonzero (iw, ih) (tw, th) ordering) as [Hiff Hno];
    simpl; [lia..|].
  assert (Hprod : iw / tw * (ih / th) = 0).
  { destruct Hz as [-> | ->]; rewrite Z.div_0_l by lia; lia. }
  split.
  - intros Hne. apply Hno. intros (_ & _ & Hlen & _). simpl in Hlen.
    rewrite Hprod in Hlen. destruct ordering; [done|discriminate].
  - intros ->. case_bool_decide as Hd.
    + apply Hiff. destruct Hd as [H1 H2].
      split_and!; simpl.
      * apply mod_0_divide; [lia|done].
      * apply mod_0_divide; [lia|done].
      * by rewrite Hprod.
      * split; [constructor|]. intros v. unfold len. simpl.
        split; [by intros ?%elem_of_nil | lia].
    + apply Hno. intros (H1 & H2 & _). simpl in H1, H2. apply Hd.
      split; apply mod_0_divide; (lia || done).
Qed.

Lemma valid_input_zero_image_witness :
  valid_input (0, 0) (2, 2) [] = Ok true ∧
  valid_input (0, 4) (2, 2) [0] = Ok false.
Proof.
  split.
  - apply (valid_input_zero_image 0 0 2 2 []); [left; reflexivity | lia | lia | reflexivity].
  - apply (valid_input_zero_image 0 4 2 2 [0]); [left; reflexivity | lia | lia | discriminate].
Defined.

(** C10: the image size (4, 4), the tile size (-2, -2) and the ordering
    [0, 1, 2, 3] are accepted: [4 % -2] is [0] and [4 // -2] is [-2], so both
    divisibility assertions hold and the tile count is [(-2) * (-2) = 4]. *)
Theorem valid_input_negative_tile_accepted :
  py_mod 4 (-2) = Ok 0 ∧ py_floordiv 4 (-2) = Ok (-2) ∧
  ∃ image_size tile_size ordering,
    tile_size.1 < 0 ∧ tile_size.2 < 0 ∧
    valid_input image_size tile_size ordering = Ok true.
Proof.
  split_and!; [reflexivity..|].
  exists (4, 4), (-2, -2), [0; 1; 2; 3]. split_and!; [done..|].
  vm_compute. reflexivity.
Qed.

(** ** Comprehensions and loops that do not raise *)

Lemma rmap_Ok {A B} (f : A → result B) l bs :
  rmap f l = Ok bs ↔ Forall2 (λ a b, f a = Ok b) l bs.
Proof.
  revert bs. induction l as [|a l IH]; intros bs; simpl.
  - split.
    + intros [= <-]. constructor.
    + intros ->%Forall2_nil_inv_l. reflexivity.
  - split.
    + destruct (f a) as [b|] eqn:Hfa; simpl; [|done].
      destruct (rmap f l) as [bs'|]; simpl; [|done].
      intros [= <-]. constructor; [done|]. by apply IH.
    + intros (b & bs' & Hfa & Hrest & ->)%Forall2_cons_inv_l.
      rewrite Hfa. simpl. apply IH in Hrest. rewrite Hrest. reflexivity.
Qed.

Lemma rmap_pure {A B} (f : A → result B) (g : A → B) l :
  (∀ a, a ∈ l → f a = Ok (g a)) → rmap f l = Ok (g <$> l).
Proof.
  intros Hf. apply rmap_Ok, Forall2_fmap_r, Forall_Forall2_diag, Forall_forall.
  exact Hf.
Qed.

Lemma rmap_total {A B} (f : A → result B) l :
  (∀ a, a ∈ l → ∃ b, f a = Ok b) → ∃ bs, rmap f l = Ok bs.
Proof.
  induction l as [|a l IH]; intros Hf; simpl; [by eexists|].
  destruct (Hf a) as [b ->]; [left|]. simpl.
  destruct IH as [bs ->]; [|by eexists].
  intros a' Ha'. apply Hf. by right.
Qed.

Lemma py_index_Ok {A} (l : list A) i a :
  0 ≤ i → l !! Z.to_nat i = Some a → py_index l i = Ok a.
Proof.
  intros Hi Hl. unfold py_index.
  destruct (Z.ltb_spec i 0); [lia|]. simpl.
  destruct (Z.ltb_spec i 0); [lia|]. by rewrite Hl.
Qed.

(** ** The permute step *)

(** The tiles after line 51, one by one. *)
Lemma sorted_tiles_spec {A} (tiles : list A) (ordering : list Z) :
  is_permutation ordering → length ordering = length tiles →
  ∃ sorted,
    sorted_tiles tiles ordering = Ok sorted ∧
    length sorted = length ordering ∧
    ∀ (i : nat) index, ordering !! i = Some index →
      0 ≤ index < len tiles ∧
      is_Some (sorted !! i) ∧
      sorted !! i = tiles !! Z.to_nat index.
Proof.
  intros [_ Hel] Hlen.
  assert (Hin : ∀ index, index ∈ ordering → 0 ≤ index < len tiles).
  { intros index Hi. apply Hel in Hi. unfold len in *. lia. }
  assert (Hsome : ∀ index, index ∈ ordering →
            ∃ t, tiles !! Z.to_nat index = Some t).
  { intros index Hi%Hin. apply lookup_lt_is_Some. unfold len in Hi. lia. }
  destruct (rmap_total (λ index, py_index tiles index) ordering) as [sorted Hr].
  { intros index Hi. destruct (Hsome _ Hi) as (t & Ht). exists t.
    apply py_index_Ok; [by apply Hin|done]. }
  exists sorted. split; [done|]. apply rmap_Ok in Hr.
  split; [symmetry; by eapply Forall2_length|].
  intros i index Hi.
  assert (Hmem : index ∈ ordering) by (apply list_elem_of_lookup; eauto).
  split; [by apply Hin|].
  destruct (Forall2_lookup_l _ _ _ _ _ Hr Hi) as (t & Ht & Hidx).
  destruct (Hsome _ Hmem) as (t' & Ht').
  rewrite (py_index_Ok tiles index t') in Hidx; [|by apply Hin|done].
  injection Hidx as ->. rewrite Ht, Ht'. eauto.
Qed.

(** ** The split step *)

Lemma crop_tile_at img dx dy x y :
  0 ≤ dx → 0 ≤ dy → crop img (x, y, x + dx, y + dy) = Ok (tile_at img dx dy (x, y)).
Proof.
  intros Hx Hy. unfold crop, tile_at.
  destruct (Z.ltb_spec (x + dx) x); [lia|].
  destruct (Z.ltb_spec (y + dy) y); [lia|].
  simpl. do 2 f_equal. f_equal; lia.
Qed.

Lemma range_list_exact n d :
  0 < d → n mod d = 0 →
  range_list 0 n d = (λ k : nat, Z.of_nat k * d) <$> seq 0 (Z.to_nat (n / d)).
Proof.
  intros Hd Hm. unfold range_list, range_len.
  destruct (Z.ltb_spec 0 d); [|lia].
  replace ((n - 0 + d - 1) / d) with (n / d).
  - apply list_fmap_ext. intros _ k _. lia.
  - apply Z.div_unique with (r := d - 1); [lia|].
    pose proof (Z.div_mod n d ltac:(lia)). lia.
Qed.

(** Rows of equal length, laid end to end, are indexed row-major. *)
Lemma concat_rows {A} (f : nat → nat → A) (m n : nat) :
  concat ((λ r, f r <$> seq 0 m) <$> seq 0 n)
  = (λ k, f (k / m)%nat (k mod m)%nat) <$> seq 0 (n * m).
Proof.
  induction n as [|n IH]; [done|].
  rewrite seq_S, fmap_app, concat_app, IH. simpl. rewrite app_nil_r.
  replace (m + n * m)%nat with (n * m + m)%nat by lia.
  rewrite seq_app, fmap_app. f_equal. simpl.
  replace (n * m)%nat with (n * m + 0)%nat at 1 by lia.
  rewrite <- fmap_add_seq, <- list_fmap_compose.
  apply list_fmap_ext. intros c ? [-> Hc]%lookup_seq. simpl.
  assert (Hm : m ≠ 0%nat) by lia.
  rewrite (Nat.add_comm (n * m) c).
  rewrite Nat.div_add, Nat.Div0.mod_add by done.
  rewrite Nat.div_small, Nat.mod_small by done. done.
Qed.

Lemma split_into_tiles_eq img dx dy :
  0 < dx → 0 < dy → (size img).1 mod dx = 0 → (size img).2 mod dy = 0 →
  split_into_tiles img dx dy =
    Ok ((λ k : nat, tile_at img dx dy (cell_origin ((size img).1 / dx) dx dy (Z.of_nat k)))
          <$> seq 0 (Z.to_nat ((size img).2 / dy) * Z.to_nat ((size img).1 / dx))).
Proof.
  intros Hdx Hdy Hw Hh. unfold split_into_tiles, py_range.
  destruct (size img) as [w h]. simpl in *.
  destruct (Z.eqb_spec dy 0); [lia|]. destruct (Z.eqb_spec dx 0); [lia|].
  rewrite !range_list_exact by done. simpl.
  set (wcn := Z.to_nat (w / dx)). set (hcn := Z.to_nat (h / dy)).
  rewrite (rmap_pure _ (λ y, (λ x, tile_at img dx dy (x, y))
                               <$> ((λ k : nat, Z.of_nat k * dx) <$> seq 0 wcn))).
  2:{ intros y _. simpl. apply rmap_pure. intros x _. apply crop_tile_at; lia. }
  simpl. f_equal.
  rewrite <- list_fmap_compose.
  rewrite (list_fmap_ext _ (λ r : nat, (λ c : nat,
             tile_at img dx dy (Z.of_nat c * dx, Z.of_nat r * dy)) <$> seq 0 wcn)).
  2:{ intros _ r _. simpl. by rewrite <- list_fmap_compose. }
  rewrite (concat_rows (λ r c, tile_at img dx dy (Z.of_nat c * dx, Z.of_nat r * dy))).
  apply list_fmap_ext. intros k ? [-> Hk]%lookup_seq. simpl. unfold cell_origin.
  assert (Hwc : Z.of_nat wcn = w / dx) by (unfold wcn in *; lia).
  rewrite <- Hwc, Nat2Z.inj_mod, Nat2Z.inj_div. reflexivity.
Qed.

Lemma cell_origin_in_grid wc hc dx dy k :
  0 < dx → 0 < dy → 0 ≤ wc → 0 ≤ k < wc * hc →
  0 ≤ (cell_origin wc dx dy k).1 ∧ (cell_origin wc dx dy k).1 + dx ≤ dx * wc ∧
  0 ≤ (cell_origin wc dx dy k).2 ∧ (cell_origin wc dx dy k).2 + dy ≤ dy * hc.
Proof.
  intros Hdx Hdy Hwc0 Hk. simpl.
  assert (Hwc : 0 < wc) by (destruct (Z.eq_dec wc 0) as [->|]; lia).
  pose proof (Z.mod_pos_bound k wc Hwc).
  assert (0 ≤ k / wc) by (apply Z.div_pos; lia).
  assert (k / wc < hc) by (apply Z.div_lt_upper_bound; nia).
  nia.
Qed.

(** The tiles of a split, one by one. *)
Lemma split_into_tiles_spec img dx dy :
  wf_image img → 0 < dx → 0 < dy → (dx | (size img).1) → (dy | (size img).2) →
  ∃ tiles,
    split_into_tiles img dx dy = Ok tiles ∧
    len tiles = ((size img).1 / dx) * ((size img).2 / dy) ∧
    (∀ k, 0 ≤ k < len tiles →
       let x := (k mod ((size img).1 / dx)) * dx in
       let y := (k / ((size img).1 / dx)) * dy in
       ∃ t, tiles !! Z.to_nat k = Some t ∧
            crop img (x, y, x + dx, y + dy) = Ok t ∧
            0 ≤ x ∧ x + dx ≤ (size img).1 ∧ 0 ≤ y ∧ y + dy ≤ (size img).2 ∧
            size t = (dx, dy) ∧ mode t = mode img ∧
            ∀ i j, 0 ≤ i < dx → 0 ≤ j < dy → data t i j = data img (x + i) (y + j)) ∧
    (∀ t, tiles !! 0%nat = Some t → crop img (0, 0, 0 + dx, 0 + dy) = Ok t).
Proof.
  intros [Hw0 Hh0] Hdx Hdy Hw Hh.
  apply mod_0_divide in Hw; [|lia]. apply mod_0_divide in Hh; [|lia].
  eexists. split; [by apply split_into_tiles_eq|].
  set (wc := (size img).1 / dx). set (hc := (size img).2 / dy).
  assert (Hwc : 0 ≤ wc) by (apply Z.div_pos; lia).
  assert (Hhc : 0 ≤ hc) by (apply Z.div_pos; lia).
  assert (Hwe : (size img).1 = dx * wc) by (apply Z_div_exact_full_2; lia).
  assert (Hhe : (size img).2 = dy * hc) by (apply Z_div_exact_full_2; lia).
  assert (Hlen : ∀ {A} (f : nat → A),
            len (f <$> seq 0 (Z.to_nat hc * Z.to_nat wc)) = wc * hc).
  { intros A f. unfold len. rewrite length_fmap, length_seq. lia. }
  split_and!.
  - apply Hlen.
  - intros k. rewrite Hlen. intros Hk x y.
    exists (tile_at img dx dy (x, y)).
    destruct (cell_origin_in_grid wc hc dx dy k) as (Hx0 & Hx1 & Hy0 & Hy1);
      [done..|]. simpl in Hx0, Hx1, Hy0, Hy1. fold x in Hx0, Hx1. fold y in Hy0, Hy1.
    split_and!; try done; try lia.
    + rewrite list_lookup_fmap, lookup_seq_lt by lia. simpl.
      unfold cell_origin. rewrite Z2Nat.id by lia. reflexivity.
    + apply crop_tile_at; lia.
    + intros i j Hi Hj. simpl. unfold in_bounds.
      destruct (Z.leb_spec 0 (x + i)); [|lia].
      destruct (Z.ltb_spec (x + i) (size img).1); [|lia].
      destruct (Z.leb_spec 0 (y + j)); [|lia].
      destruct (Z.ltb_spec (y + j) (size img).2); [|lia]. reflexivity.
  - intros t. rewrite list_lookup_fmap. intros Ht.
    destruct (seq 0 (Z.to_nat hc * Z.to_nat wc) !! 0%nat) as [k0|] eqn:Hs; [|done].
    apply lookup_seq in Hs as [-> Hlt]. simpl in Ht. injection Ht as <-.
    assert (Hnz : wc ≠ 0) by (intros Hz; rewrite Hz in Hlt; simpl in Hlt; lia).
    rewrite crop_tile_at by lia. unfold cell_origin. simpl. fold wc.
    rewrite Z.mod_0_l, Z.div_0_l by done. done.
Qed.

(** ** The combine step *)

Lemma div_eq_iff a d q : 0 < d → a / d = q ↔ q * d ≤ a < q * d + d.
Proof.
  intros Hd. split.
  - intros <-. pose proof (Z.div_mod a d ltac:(lia)).
    pose proof (Z.mod_pos_bound a d Hd). lia.
  - intros Ha. symmetry. apply Z.div_unique with (r := a - q * d); lia.
Qed.

Lemma tile_on_cons {A} (t : A) tiles start c :
  tile_on (t :: tiles) start c =
    if c =? start then Some t else tile_on tiles (start + 1) c.
Proof.
  unfold tile_on.
  destruct (Z.eqb_spec c start) as [->|Hne].
  - rewrite Z.leb_refl, Z.sub_diag. reflexivity.
  - destruct (Z.leb_spec start c), (Z.leb_spec (start + 1) c); try lia; [|done].
    replace (Z.to_nat (c - start)) with (S (Z.to_nat (c - (start + 1)))) by lia.
    reflexivity.
Qed.

Lemma in_bounds_true img x y :
  in_bounds img x y = true ↔ 0 ≤ x < (size img).1 ∧ 0 ≤ y < (size img).2.
Proof.
  unfold in_bounds. rewrite !andb_true_iff, !Z.leb_le, !Z.ltb_lt. lia.
Qed.

Lemma combine_tiles_unfold tiles wc hc dx dy m :
  combine_tiles tiles wc hc dx dy m =
    (img ← Image_new m (dx * wc, dy * hc);
     rfold (paste_step wc dx dy) img (enumerate tiles)).
Proof. reflexivity. Qed.

(** *** A grid of cells [dx] by [dy], [wc] cells wide *)

Section Grid.

Variables wc dx dy : Z.
Hypothesis Hdx : 0 < dx.
Hypothesis Hdy : 0 < dy.
Hypothesis Hwc : 0 < wc.

Lemma cell_index_col_row X Y :
  0 ≤ X < dx * wc →
  cell_index wc dx dy X Y mod wc = X / dx ∧ cell_index wc dx dy X Y / wc = Y / dy.
Proof using Hdx Hdy Hwc.
  intros HX. unfold cell_index.
  assert (0 ≤ X / dx) by (apply Z.div_pos; lia).
  assert (X / dx < wc) by (apply Z.div_lt_upper_bound; lia).
  split.
  - symmetry. apply Z.mod_unique with (q := Y / dy); lia.
  - symmetry. apply Z.div_unique with (r := X / dx); lia.
Qed.

(** A pixel lies in the cell of index [k] exactly when [k] is its cell index. *)
Lemma in_cell_iff k X Y :
  0 ≤ X < dx * wc →
  let '(x, y) := cell_origin wc dx dy k in
  (x ≤ X < x + dx ∧ y ≤ Y < y + dy) ↔ cell_index wc dx dy X Y = k.
Proof using Hdx Hdy Hwc.
  intros HX. simpl.
  rewrite <- !div_eq_iff by done.
  destruct (cell_index_col_row X Y) as [Hc Hr]; [done|].
  split.
  - intros [H1 H2]. unfold cell_index. rewrite H1, H2.
    pose proof (Z.div_mod k wc ltac:(lia)). lia.
  - intros <-. done.
Qed.

(** Where a pixel lies within its cell. *)
Lemma sub_cell_origin X Y :
  0 ≤ X < dx * wc →
  let '(x, y) := cell_origin wc dx dy (cell_index wc dx dy X Y) in
  X - x = X mod dx ∧ Y - y = Y mod dy.
Proof using Hdx Hdy Hwc.
  intros HX. simpl.
  destruct (cell_index_col_row X Y) as [-> ->]; [done|].
  pose proof (Z.div_mod X dx ltac:(lia)). pose proof (Z.div_mod Y dy ltac:(lia)).
  lia.
Qed.

Lemma paste_step_nonzero img i tile :
  paste_step wc dx dy img (i, tile) = Ok (paste img tile (cell_origin wc dx dy i)).
Proof using Hdx Hdy Hwc.
  unfold paste_step, py_mod, py_floordiv.
  destruct (Z.eqb_spec wc 0); [lia|]. reflexivity.
Qed.

(** The loop of [combine_tiles], from any index and any image as wide as
    the grid. *)
Lemma combine_loop tiles : ∀ start img0,
  (size img0).1 = dx * wc →
  Forall (λ t, size t = (dx, dy)) tiles →
  ∃ img,
    rfold (paste_step wc dx dy) img0 (enumerate_from start tiles) = Ok img ∧
    size img = size img0 ∧ mode img = mode img0 ∧
    ∀ X Y, in_bounds img0 X Y = true →
      data img X Y =
        match tile_on tiles start (cell_index wc dx dy X Y) with
        | Some t => data t (X mod dx) (Y mod dy)
        | None => data img0 X Y
        end.
Proof using Hdx Hdy Hwc.
  induction tiles as [|t tiles IH]; intros start img0 Hw Hsz.
  - exists img0. split_and!; [done..|]. intros X Y _.
    unfold tile_on. destruct (start <=? _); by rewrite ?lookup_nil.
  - apply Forall_cons in Hsz as [Ht Hsz]. cbn [enumerate_from rfold].
    rewrite paste_step_nonzero. cbn [mbind result_bind].
    set (img1 := paste img0 t (cell_origin wc dx dy start)).
    destruct (IH (start + 1) img1) as (img & Hrun & Hsize & Hmode & Hdata);
      [done..|].
    exists img. split_and!; [done..|]. intros X Y Hin.
    rewrite Hdata by done. rewrite tile_on_cons.
    apply in_bounds_true in Hin as Hb. rewrite Hw in Hb.
    pose proof (in_cell_iff start X Y (proj1 Hb)) as Hcell.
    pose proof (sub_cell_origin X Y (proj1 Hb)) as Hsub.
    simpl in Hcell, Hsub.
    destruct (Z.eqb_spec (cell_index wc dx dy X Y) start) as [Heq|Hne].
    + unfold tile_on. destruct (Z.leb_spec (start + 1) (cell_index wc dx dy X Y)); [lia|].
      rewrite Heq in Hsub. destruct Hsub as [Hsx Hsy].
      simpl. rewrite Hin. simpl.
      replace (in_bounds t _ _) with true.
      * by rewrite Hsx, Hsy.
      * symmetry. apply in_bounds_true. rewrite Ht. simpl.
        apply Hcell in Heq. lia.
    + destruct (tile_on tiles (start + 1) _); [done|].
      simpl. rewrite Hin. simpl.
      replace (in_bounds t _ _) with false; [done|].
      symmetry. apply not_true_is_false. intros Hb'%in_bounds_true.
      rewrite Ht in Hb'. simpl in Hb'. apply Hne, Hcell. lia.
Qed.

End Grid.

Lemma cell_index_range wc hc dx dy X Y :
  0 < dx → 0 < dy → 0 ≤ X < dx * wc → 0 ≤ Y < dy * hc →
  0 ≤ cell_index wc dx dy X Y < wc * hc.
Proof.
  intros Hdx Hdy HX HY. unfold cell_index.
  assert (0 ≤ X / dx) by (apply Z.div_pos; lia).
  assert (X / dx < wc) by (apply Z.div_lt_upper_bound; lia).
  assert (0 ≤ Y / dy) by (apply Z.div_pos; lia).
  assert (Y / dy < hc) by (apply Z.div_lt_upper_bound; lia).
  nia.
Qed.

(** What [combine_tiles] builds from [width_count * height_count] tiles of
    size [(dx, dy)]: every pixel of the new image comes from the tile whose
    index is the index of the pixel's cell. *)
Lemma combine_tiles_pixels tiles wc hc dx dy m :
  0 < dx → 0 < dy → 0 ≤ wc → 0 ≤ hc → len tiles = wc * hc →
  Forall (λ t, size t = (dx, dy)) tiles →
  ∃ img,
    combine_tiles tiles wc hc dx dy m = Ok img ∧
    size img = (dx * wc, dy * hc) ∧ mode img = m ∧
    ∀ X Y, 0 ≤ X < dx * wc → 0 ≤ Y < dy * hc →
      ∃ t, tiles !! Z.to_nat (cell_index wc dx dy X Y) = Some t ∧
           data img X Y = data t (X mod dx) (Y mod dy).
Proof.
  intros Hdx Hdy Hwc Hhc Hlen Hsz. rewrite combine_tiles_unfold.
  unfold Image_new. simpl.
  destruct (Z.ltb_spec (dx * wc) 0); [nia|].
  destruct (Z.ltb_spec (dy * hc) 0); [nia|]. simpl.
  set (img0 := {| mode := m; size := (dx * wc, dy * hc); data := λ _ _, 0 |}).
  destruct (Z.eq_dec wc 0) as [->|Hnz].
  - destruct tiles; [|unfold len in Hlen; simpl in Hlen; lia].
    exists img0. split_and!; [done..|]. intros X Y HX. lia.
  - destruct (combine_loop wc dx dy Hdx Hdy ltac:(lia) tiles 0 img0)
      as (img & Hrun & Hsize & Hmode & Hdata); [done..|].
    exists img. split_and!; [done..|]. intros X Y HX HY.
    pose proof (cell_index_range wc hc dx dy X Y Hdx Hdy HX HY) as Hc.
    destruct (lookup_lt_is_Some_2 tiles (Z.to_nat (cell_index wc dx dy X Y)))
      as [t Ht]; [unfold len in Hlen; lia|].
    exists t. split; [done|].
    rewrite Hdata by (apply in_bounds_true; simpl; lia).
    unfold tile_on. destruct (Z.leb_spec 0 (cell_index wc dx dy X Y)); [|lia].
    by rewrite Z.sub_0_r, Ht.
Qed.

(** The pipeline on a valid arrangement with a positive tile size: the new
    image has the size and mode of the old one, and the cell of index [c] of
    the new image shows the cell of index [ordering[c]] of the old one. *)
Lemma rearrange_tiles_new_img_pixels img dx dy ordering :
  wf_image img → 0 < dx → 0 < dy →
  valid_input (size img) (dx, dy) ordering = Ok true →
  ∃ new_img,
    rearrange_tiles_new_img img (dx, dy) ordering = Ok new_img ∧
    size new_img = size img ∧ mode new_img = mode img ∧
    ∀ X Y, 0 ≤ X < (size img).1 → 0 ≤ Y < (size img).2 →
      ∃ index,
        ordering !! Z.to_nat (cell_index ((size img).1 / dx) dx dy X Y) = Some index ∧
        0 ≤ index < len ordering ∧
        data new_img X Y =
          data img ((cell_origin ((size img).1 / dx) dx dy index).1 + X mod dx)
                   ((cell_origin ((size img).1 / dx) dx dy index).2 + Y mod dy).
Proof.
  intros Hwf Hdx Hdy Hvalid. unfold rearrange_tiles_new_img. rewrite Hvalid. simpl.
  apply valid_input_true_iff in Hvalid as (_ & _ & Hw & Hh & Hlen & Hperm).
  simpl in Hw, Hh, Hlen.
  destruct (split_into_tiles_spec img dx dy) as (tiles & -> & Htl & Htiles & _);
    [done..|]. simpl.
  destruct (sorted_tiles_spec tiles ordering) as (sorted & -> & Hsl & Hsorted);
    [done | unfold len in *; lia |]. simpl.
  unfold py_floordiv.
  destruct (Z.eqb_spec dx 0); [lia|]. destruct (Z.eqb_spec dy 0); [lia|]. simpl.
  set (wc := (size img).1 / dx) in *. set (hc := (size img).2 / dy) in *.
  destruct Hwf as [Hw0 Hh0].
  assert (Hwc : 0 ≤ wc) by (apply Z.div_pos; lia).
  assert (Hhc : 0 ≤ hc) by (apply Z.div_pos; lia).
  assert (Hwe : (size img).1 = dx * wc).
  { apply Z_div_exact_full_2; [lia|]. apply mod_0_divide; [lia|done]. }
  assert (Hhe : (size img).2 = dy * hc).
  { apply Z_div_exact_full_2; [lia|]. apply mod_0_divide; [lia|done]. }
  destruct (combine_tiles_pixels sorted wc hc dx dy (mode img))
    as (new_img & -> & Hsize & Hmode & Hdata); [done..| | |].
  { unfold len in *. lia. }
  { apply Forall_lookup. intros i t Ht.
    destruct (lookup_lt_is_Some_2 ordering i) as [index Hi].
    { apply lookup_lt_Some in Ht. lia. }
    destruct (Hsorted i index Hi) as (Hrange & _ & Heq).
    destruct (Htiles index) as (t' & Ht' & _ & _ & _ & _ & _ & Hsz & _); [lia|].
    rewrite Heq, Ht' in Ht. by injection Ht as <-. }
  exists new_img. split_and!; [done | | done |].
  { rewrite Hsize, (surjective_pairing (size img)). by rewrite <- Hwe, <- Hhe. }
  intros X Y HX HY.
  destruct (Hdata X Y) as (t & Ht & Hpix); [lia..|].
  pose proof (cell_index_range wc hc dx dy X Y Hdx Hdy ltac:(lia) ltac:(lia)) as Hc.
  destruct (lookup_lt_is_Some_2 ordering (Z.to_nat (cell_index wc dx dy X Y)))
    as [index Hi]; [unfold len in *; lia|].
  exists index. split; [done|].
  destruct (Hsorted _ index Hi) as (Hrange & _ & Heq).
  split; [unfold len in *; lia|].
  destruct (Htiles index) as (t' & Ht' & _ & _ & _ & _ & _ & _ & _ & Hcrop); [lia|].
  rewrite Heq, Ht' in Ht. injection Ht as <-.
  rewrite Hpix. apply Hcrop; apply Z.mod_pos_bound; lia.
Qed.

(** ** Exceptions other than the validation failure *)

Lemma bind_not_invalid {A B} (c : result A) (k : A → result B) :
  not_invalid c → (∀ a, not_invalid (k a)) → not_invalid (c ≫= k).
Proof.
  unfold not_invalid. destruct c as [a|e]; simpl; [auto|].
  intros He _ [= ->]. by apply He.
Qed.

Lemma rmap_not_invalid {A B} (f : A → result B) l :
  (∀ a, not_invalid (f a)) → not_invalid (rmap f l).
Proof.
  intros Hf. induction l as [|a l IH]; simpl; [done|].
  apply bind_not_invalid; [done|]. intros b.
  apply bind_not_invalid; [done|]. done.
Qed.

Lemma rfold_not_invalid {A S} (f : S → A → result S) l : ∀ s,
  (∀ s a, not_invalid (f s a)) → not_invalid (rfold f s l).
Proof.
  induction l as [|a l IH]; intros s Hf; simpl; [done|].
  apply bind_not_invalid; [done|]. intros s'. by apply IH.
Qed.

Lemma py_mod_not_invalid a b : not_invalid (py_mod a b).
Proof. unfold py_mod. by destruct (b =? 0). Qed.

Lemma py_floordiv_not_invalid a b : not_invalid (py_floordiv a b).
Proof. unfold py_floordiv. by destruct (b =? 0). Qed.

Lemma py_range_not_invalid a b c : not_invalid (py_range a b c).
Proof. unfold py_range. by destruct (c =? 0). Qed.

Lemma py_index_not_invalid {A} (l : list A) i : not_invalid (py_index l i).
Proof.
  unfold py_index. destruct (_ <? 0); [done|]. by destruct (l !! _).
Qed.

Lemma crop_not_invalid img box : not_invalid (crop img box).
Proof.
  destruct box as [[[x0 y0] x1] y1]. unfold crop.
  destruct (x1 <? x0); [done|]. by destruct (y1 <? y0).
Qed.

Lemma Image_new_not_invalid m sz : not_invalid (Image_new m sz).
Proof. unfold Image_new. by destruct (_ || _). Qed.

Lemma split_into_tiles_not_invalid img dx dy : not_invalid (split_into_tiles img dx dy).
Proof.
  unfold split_into_tiles. destruct (size img) as [w h].
  apply bind_not_invalid; [apply py_range_not_invalid|]. intros ys.
  apply bind_not_invalid; [|done].
  apply rmap_not_invalid. intros y.
  apply bind_not_invalid; [apply py_range_not_invalid|]. intros xs.
  apply rmap_not_invalid. intros x. apply crop_not_invalid.
Qed.

Lemma combine_tiles_not_invalid tiles wc hc dx dy m :
  not_invalid (combine_tiles tiles wc hc dx dy m).
Proof.
  rewrite combine_tiles_unfold.
  apply bind_not_invalid; [apply Image_new_not_invalid|]. intros img.
  apply rfold_not_invalid. intros s [i t]. unfold paste_step.
  apply bind_not_invalid; [apply py_mod_not_invalid|]. intros c.
  apply bind_not_invalid; [apply py_floordiv_not_invalid|]. done.
Qed.

Lemma valid_input_not_invalid image_size tile_size ordering :
  not_invalid (valid_input image_size tile_size ordering).
Proof.
  destruct image_size as [iw ih], tile_size as [tw th].
  unfold not_invalid, valid_input, valid_input_try, py_mod, py_floordiv, py_assert.
  simpl.
  destruct (tw =? 0); simpl; [done|].
  destruct (iw mod tw =? 0); simpl; [|done].
  destruct (th =? 0); simpl; [done|].
  destruct (ih mod th =? 0); simpl; [|done].
  destruct (_ =? len ordering); simpl; [|done].
  by destruct (bool_decide _).
Qed.

(** The pipeline raises the validation failure exactly when [valid_input]
    returns [False]. *)
Lemma rearrange_tiles_new_img_invalid img tile_size ordering :
  rearrange_tiles_new_img img tile_size ordering = Raise InvalidArrangement ↔
  valid_input (size img) tile_size ordering = Ok false.
Proof.
  unfold rearrange_tiles_new_img.
  pose proof (valid_input_not_invalid (size img) tile_size ordering) as Hv.
  destruct (valid_input (size img) tile_size ordering) as [[|]|e]; simpl.
  - split; [|done]. destruct tile_size as [dx dy]. intros Hr. exfalso. revert Hr.
    apply bind_not_invalid; [apply split_into_tiles_not_invalid|]. intros tiles.
    apply bind_not_invalid; [apply rmap_not_invalid, py_index_not_invalid|].
    intros sorted.
    apply bind_not_invalid; [apply py_floordiv_not_invalid|]. intros wc.
    apply bind_not_invalid; [apply py_floordiv_not_invalid|]. intros hc.
    apply combine_tiles_not_invalid.
  - done.
  - split; [|done]. intros [= ->]. by destruct Hv.
Qed.

(** ** Size and mode of the result, whenever there is one *)

Lemma rfold_paste_step_size wc dx dy l : ∀ img0 img,
  rfold (paste_step wc dx dy) img0 l = Ok img →
  size img = size img0 ∧ mode img = mode img0.
Proof.
  induction l as [|[i t] l IH]; intros img0 img; simpl.
  - by intros [= ->].
  - destruct (py_mod i wc) as [c|]; [|done]. simpl.
    destruct (py_floordiv i wc) as [r|]; [|done]. simpl.
    intros Hrun. by destruct (IH _ _ Hrun) as [-> ->].
Qed.

Lemma combine_tiles_size tiles wc hc dx dy m img :
  combine_tiles tiles wc hc dx dy m = Ok img →
  size img = (dx * wc, dy * hc) ∧ mode img = m.
Proof.
  rewrite combine_tiles_unfold. unfold Image_new.
  destruct (_ || _); [done|]. simpl. intros Hrun.
  by destruct (rfold_paste_step_size _ _ _ _ _ _ Hrun) as [-> ->].
Qed.

Lemma rearrange_tiles_new_img_size img tile_size ordering new_img :
  rearrange_tiles_new_img img tile_size ordering = Ok new_img →
  valid_input (size img) tile_size ordering = Ok true ∧
  size new_img = size img ∧ mode new_img = mode img.
Proof.
  unfold rearrange_tiles_new_img.
  destruct (valid_input (size img) tile_size ordering) as [[|]|e] eqn:Hvalid;
    simpl; [|done..].
  apply valid_input_true_iff in Hvalid as (Hdx & Hdy & Hw & Hh & _).
  destruct tile_size as [dx dy]. simpl in *.
  destruct (split_into_tiles img dx dy) as [tiles|]; [|done]. simpl.
  destruct (sorted_tiles tiles ordering) as [sorted|]; [|done]. simpl.
  unfold py_floordiv.
  destruct (Z.eqb_spec dx 0); [done|]. destruct (Z.eqb_spec dy 0); [done|]. simpl.
  intros [-> ->]%combine_tiles_size. split_and!; [done| |done].
  rewrite (surjective_pairing (size img)). f_equal; symmetry.
  - apply Z_div_exact_full_2; [done|]. by apply mod_0_divide.
  - apply Z_div_exact_full_2; [done|]. by apply mod_0_divide.
Qed.




(** * The claims *)

(** ** What [save] can and cannot do *)

Section Saving.

Context `{Encoders}.

(** [save] never raises the validation failure of [rearrange_tiles]. *)
Lemma Image_save_not_invalid (fs : FS) img path :
  (Image_save fs img path).2 ≠ Raise InvalidArrangement.
Proof. unfold Image_save. by destruct (encode img path). Qed.

(** [save] leaves every other path as it was. *)
Lemma Image_save_other (fs : FS) img path other :
  other ≠ path → (Image_save fs img path).1 !! other = fs !! other.
Proof.
  intros Hne. unfold Image_save. destruct (encode img path); simpl.
  - by apply lookup_insert_ne.
  - done.
  - done.
  - by apply lookup_delete_ne.
Qed.

(** C2: once the image is open, [rearrange_tiles] raises [ValueError] with
    the message "The tile size or ordering are not valid for the given
    image" if and only if [valid_input] returns [False] on the size of the
    image, the tile size and the ordering; and then the file system is left
    as it was, so nothing is created or overwritten at [out_path]. *)
Theorem rearrange_tiles_raises_invalid
    (fs : FS) image_path tile_size ordering out_path img :
  fs !! image_path = Some img →
  ((rearrange_tiles fs image_path tile_size ordering out_path).2
     = Raise (ValueError "The tile size or ordering are not valid for the given image")
   ↔ valid_input (size img) tile_size ordering = Ok false) ∧
  (valid_input (size img) tile_size ordering = Ok false →
   (rearrange_tiles fs image_path tile_size ordering out_path).1 = fs ∧
   (rearrange_tiles fs image_path tile_size ordering out_path).1 !! out_path
     = fs !! out_path).
Proof.
  intros Hopen. unfold rearrange_tiles, Image_open. rewrite Hopen.
  pose proof (rearrange_tiles_new_img_invalid img tile_size ordering) as Hiff.
  fold InvalidArrangement.
  destruct (rearrange_tiles_new_img img tile_size ordering) as [new_img|e]; simpl.
  - assert (Hsave : (Image_save fs new_img out_path).2 ≠ Raise InvalidArrangement)
      by apply Image_save_not_invalid.
    split.
    + split; [done|]. intros Hv. by apply Hiff in Hv.
    + intros Hv. by apply Hiff in Hv.
  - split; [|done]. rewrite <- Hiff. split; congruence.
Qed.


(** C8: whenever [rearrange_tiles] returns, the image it has built and
    handed to [save] has the width, the height and the mode of the image it
    opened, and [out_path] holds what the encoder stored of it; for a
    positive tile size, every pixel of the image built is the pixel at the
    same place within the tile that the ordering assigns to its cell. *)
Theorem rearrange_tiles_preserves_size_mode
    (fs fs' : FS) image_path tile_size ordering out_path :
  rearrange_tiles fs image_path tile_size ordering out_path = (fs', Ok tt) →
  ∃ img new_img stored,
    fs !! image_path = Some img ∧
    rearrange_tiles_new_img img tile_size ordering = Ok new_img ∧
    (size new_img).1 = (size img).1 ∧
    (size new_img).2 = (size img).2 ∧
    mode new_img = mode img ∧
    encode new_img out_path = Saved stored ∧
    fs' = <[out_path := stored]> fs ∧
    (wf_image img → 0 < tile_size.1 → 0 < tile_size.2 →
     ∀ X Y, 0 ≤ X < (size img).1 → 0 ≤ Y < (size img).2 →
       ∃ index,
         ordering !! Z.to_nat
           (cell_index ((size img).1 / tile_size.1) tile_size.1 tile_size.2 X Y)
           = Some index ∧
         0 ≤ index < len ordering ∧
         data new_img X Y =
           data img
             ((index mod ((size img).1 / tile_size.1)) * tile_size.1 + X mod tile_size.1)
             ((index / ((size img).1 / tile_size.1)) * tile_size.2 + Y mod tile_size.2)).
Proof.
  unfold rearrange_tiles, Image_open, Image_save.
  destruct (fs !! image_path) as [img|] eqn:Hopen; [|done].
  destruct (rearrange_tiles_new_img img tile_size ordering) as [new_img|] eqn:Hrun;
    [|done].
  destruct (encode new_img out_path) as [stored| | |] eqn:Henc; [|done..].
  intros [= <-]. exists img, new_img, stored.
  destruct (rearrange_tiles_new_img_size _ _ _ _ Hrun) as (Hvalid & Hsize & Hmode).
  split_and!; [done | done | by rewrite Hsize..| done | done | done |].
  destruct tile_size as [dx dy]. simpl. intros Hwf Hdx Hdy X Y HX HY.
  destruct (rearrange_tiles_new_img_pixels img dx dy ordering Hwf Hdx Hdy Hvalid)
    as (new_img' & Hrun' & _ & _ & Hdata).
  rewrite Hrun in Hrun'. injection Hrun' as <-.
  apply Hdata; done.
Qed.

End Saving.

Lemma rearrange_tiles_raises_invalid_witness :
  (rearrange_tiles {["in.png" := img54]} "in.png" (2, 2) [0; 1; 2; 3] "out.png").2
    = Raise (ValueError "The tile size or ordering are not valid for the given image") ∧
  (rearrange_tiles {["in.png" := img54]} "in.png" (2, 2) [0; 1; 2; 3] "out.png").1
    !! "out.png" = None.
Proof.
  destruct (rearrange_tiles_raises_invalid {["in.png" := img54]} "in.png" (2, 2)
              [0; 1; 2; 3] "out.png" img54) as [Hiff Hfs].
  - reflexivity.
  - split.
    + apply Hiff. vm_compute. reflexivity.
    + destruct Hfs as [_ ->]; [vm_compute; reflexivity|]. reflexivity.
Defined.



(** C5: for a well-formed image and a tile size [(dx, dy)] of positive
    integers dividing its size, [split_into_tiles] returns
    [(width / dx) * (height / dy)] tiles; the tile of index [k] is the crop
    of the rectangle [[x, x + dx) × [y, y + dy)] with
    [x = (k mod (width / dx)) * dx] and [y = (k div (width / dx)) * dy], so
    the rows are taken from the top, each from left to right, and the first
    tile is the one at the top left. *)
Theorem split_into_tiles_row_major img dx dy :
  wf_image img → 0 < dx → 0 < dy → (dx | (size img).1) → (dy | (size img).2) →
  ∃ tiles,
    split_into_tiles img dx dy = Ok tiles ∧
    len tiles = ((size img).1 / dx) * ((size img).2 / dy) ∧
    (∀ k, 0 ≤ k < len tiles →
       let x := (k mod ((size img).1 / dx)) * dx in
       let y := (k / ((size img).1 / dx)) * dy in
       ∃ t, tiles !! Z.to_nat k = Some t ∧
            crop img (x, y, x + dx, y + dy) = Ok t ∧
            0 ≤ x ∧ x + dx ≤ (size img).1 ∧ 0 ≤ y ∧ y + dy ≤ (size img).2 ∧
            size t = (dx, dy) ∧ mode t = mode img ∧
            ∀ i j, 0 ≤ i < dx → 0 ≤ j < dy → data t i j = data img (x + i) (y + j)) ∧
    (∀ t, tiles !! 0%nat = Some t → crop img (0, 0, 0 + dx, 0 + dy) = Ok t).
Proof. apply split_into_tiles_spec. Qed.

Lemma split_into_tiles_row_major_witness :
  ∃ tiles,
    split_into_tiles img44 2 2 = Ok tiles ∧ len tiles = 4 ∧
    pixels <$> tiles
    = [ [[0; 1]; [10; 11]]; [[2; 3]; [12; 13]];
        [[20; 21]; [30; 31]]; [[22; 23]; [32; 33]] ].
Proof.
  destruct (split_into_tiles_row_major img44 2 2) as (tiles & Hrun & Hlen & _).
  - split; simpl; lia.
  - lia.
  - lia.
  - exists 2. reflexivity.
  - exists 2. reflexivity.
  - exists tiles. split; [exact Hrun|]. split; [exact Hlen|].
    vm_compute in Hrun. injection Hrun as <-. vm_compute. reflexivity.
Defined.

(** C6: for an ordering that is a permutation of the indices of [tiles],
    line 51 returns a list as long as the ordering whose position [i] holds
    [tiles[ordering[i]]]. *)
Theorem sorted_tiles_places {A} (tiles : list A) (ordering : list Z) :
  is_permutation ordering → length ordering = length tiles →
  ∃ sorted,
    sorted_tiles tiles ordering = Ok sorted ∧
    length sorted = length ordering ∧
    ∀ (i : nat) index, ordering !! i = Some index →
      0 ≤ index < len tiles ∧
      is_Some (sorted !! i) ∧
      sorted !! i = tiles !! Z.to_nat index.
Proof. apply sorted_tiles_spec. Qed.

Lemma is_permutation_3210 : is_permutation [3; 2; 1; 0].
Proof.
  apply set_eq_is_permutation. vm_compute. reflexivity.
Defined.

Lemma sorted_tiles_places_witness :
  ∃ sorted,
    sorted_tiles ["a"; "b"; "c"; "d"]%string [3; 2; 1; 0] = Ok sorted ∧
    length sorted = 4%nat.
Proof.
  destruct (sorted_tiles_places ["a"; "b"; "c"; "d"]%string [3; 2; 1; 0])
    as (sorted & Hrun & Hlen & _).
  - exact is_permutation_3210.
  - reflexivity.
  - exists sorted. split; [exact Hrun | exact Hlen].
Defined.

(** C7: from the [width_count * height_count] tiles of an image [src] of
    size [(dx * width_count, dy * height_count)], each of size [(dx, dy)]
    and of the mode of [src], [combine_tiles] builds an image of that size in
    that mode on which tile [i] lies at the offset
    [x = (i mod width_count) * dx], [y = (i div width_count) * dy]; and for a
    4 by 4 image, tiles of 2 by 2 and the ordering [3, 2, 1, 0], the image
    that split, permute and combine build shows the former tile 3 at the top
    left, tile 2 at the top right, tile 1 at the bottom left and tile 0 at
    the bottom right. *)
Theorem combine_tiles_layout :
  (∀ src tiles width_count height_count dx dy,
     wf_image src → size src = (dx * width_count, dy * height_count) →
     0 < dx → 0 < dy → 0 ≤ width_count → 0 ≤ height_count →
     len tiles = width_count * height_count →
     Forall (λ t, size t = (dx, dy) ∧ mode t = mode src) tiles →
     ∃ img,
       combine_tiles tiles width_count height_count dx dy (mode src) = Ok img ∧
       size img = (dx * width_count, dy * height_count) ∧
       mode img = mode src ∧
       ∀ i tile, 0 ≤ i → tiles !! Z.to_nat i = Some tile →
         let x := (i mod width_count) * dx in
         let y := (i / width_count) * dy in
         ∀ a b, 0 ≤ a < dx → 0 ≤ b < dy →
           data img (x + a) (y + b) = data tile a b) ∧
  (∀ img,
     size img = (4, 4) →
     ∃ new_img,
       rearrange_tiles_new_img img (2, 2) [3; 2; 1; 0] = Ok new_img ∧
       size new_img = (4, 4) ∧ mode new_img = mode img ∧
       ∀ a b, 0 ≤ a < 2 → 0 ≤ b < 2 →
         data new_img a b = data img (2 + a) (2 + b) ∧
         data new_img (2 + a) b = data img a (2 + b) ∧
         data new_img a (2 + b) = data img (2 + a) b ∧
         data new_img (2 + a) (2 + b) = data img a b).
Proof.
  split.
  - intros src tiles wc hc dx dy _ _ Hdx Hdy Hwc Hhc Hlen Hsz.
    destruct (combine_tiles_pixels tiles wc hc dx dy (mode src))
      as (img & Hrun & Hsize & Hmode & Hdata); [done..| |].
    { eapply Forall_impl; [exact Hsz|]. by intros t [? _]. }
    exists img. split_and!; [done..|]. intros i tile Hi Ht x y a b Ha Hb.
    assert (Hrange : 0 ≤ i < wc * hc).
    { apply lookup_lt_Some in Ht. unfold len in Hlen. lia. }
    assert (Hwc' : 0 < wc) by (destruct (Z.eq_dec wc 0) as [->|]; lia).
    pose proof (cell_origin_in_grid wc hc dx dy i Hdx Hdy Hwc Hrange) as Hgrid.
    simpl in Hgrid. fold x y in Hgrid.
    assert (HX : 0 ≤ x + a < dx * wc) by lia.
    assert (HY : 0 ≤ y + b < dy * hc) by lia.
    assert (Hc : cell_index wc dx dy (x + a) (y + b) = i).
    { pose proof (in_cell_iff wc dx dy Hdx Hdy Hwc' i (x + a) (y + b) HX) as Hcell.
      simpl in Hcell. apply Hcell. fold x y. lia. }
    destruct (Hdata (x + a) (y + b) HX HY) as (t & Ht' & ->).
    rewrite Hc, Ht in Ht'. injection Ht' as <-.
    pose proof (sub_cell_origin wc dx dy Hdx Hdy Hwc' (x + a) (y + b) HX) as Hsub.
    rewrite Hc in Hsub. simpl in Hsub. fold x y in Hsub.
    destruct Hsub as [<- <-]. f_equal; lia.
  - intros img Hsize.
    destruct (rearrange_tiles_new_img_pixels img 2 2 [3; 2; 1; 0])
      as (new_img & Hrun & Hsize' & Hmode' & Hdata).
    { unfold wf_image. rewrite Hsize. simpl. lia. }
    { lia. }
    { lia. }
    { rewrite Hsize. vm_compute. reflexivity. }
    exists new_img. split_and!; [done | congruence | done |].
    rewrite Hsize in Hdata. simpl in Hdata.
    intros a b Ha Hb.
    assert (Hab : (a = 0 ∨ a = 1) ∧ (b = 0 ∨ b = 1)) by lia.
    destruct Hab as [[-> | ->] [-> | ->]]; split_and!;
      match goal with
      | |- data new_img ?X ?Y = _ =>
          destruct (Hdata X Y) as (index & Hi & _ & ->); [lia | lia |];
          vm_compute in Hi; injection Hi as <-; reflexivity
      end.
Qed.

Lemma combine_tiles_layout_witness :
  (∃ img,
     combine_tiles [tile_at img44 2 2 (2, 2); tile_at img44 2 2 (0, 0)] 2 1 2 2 "L"
       = Ok img ∧
     size img = (4, 2) ∧ data img 0 0 = 22 ∧ data img 3 1 = 11) ∧
  (∃ new_img,
     rearrange_tiles_new_img img44 (2, 2) [3; 2; 1; 0] = Ok new_img ∧
     data new_img 0 0 = 22 ∧ data new_img 2 0 = 20 ∧
     data new_img 0 2 = 2 ∧ data new_img 2 2 = 0).
Proof.
  split.
  - destruct (proj1 combine_tiles_layout
                {| mode := "L"; size := (4, 2); data := λ x y, 10 * y + x |}
                [tile_at img44 2 2 (2, 2); tile_at img44 2 2 (0, 0)] 2 1 2 2)
      as (img & Hrun & Hsize & _ & Hdata).
    + split; simpl; lia.
    + reflexivity.
    + lia.
    + lia.
    + lia.
    + lia.
    + reflexivity.
    + repeat constructor.
    + exists img. split; [exact Hrun|]. split; [exact Hsize|]. split.
      * apply (Hdata 0 (tile_at img44 2 2 (2, 2))); [lia | reflexivity | lia | lia].
      * apply (Hdata 1 (tile_at img44 2 2 (0, 0)) ltac:(lia) eq_refl 1 1); lia.
  - destruct (proj2 combine_tiles_layout img44) as (new_img & Hrun & _ & _ & Hdata).
    + reflexivity.
    + exists new_img. split; [exact Hrun|].
      destruct (Hdata 0 0) as (H0 & H1 & H2 & H3); [lia | lia |].
      simpl in H0, H1, H2, H3. auto.
Defined.

Lemma rearrange_tiles_preserves_size_mode_witness :
  ∃ img new_img stored,
    ({["in.png" := img44]} : FS) !! "in.png" = Some img ∧
    rearrange_tiles_new_img img (2, 2) [3; 2; 1; 0] = Ok new_img ∧
    (size new_img).1 = (size img).1 ∧ (size new_img).2 = (size img).2 ∧
    mode new_img = mode img ∧
    (rearrange_tiles {["in.png" := img44]} "in.png" (2, 2) [3; 2; 1; 0] "out.png").1
      !! "out.png" = Some stored.
Proof.
  destruct (rearrange_tiles_preserves_size_mode {["in.png" := img44]}
              (rearrange_tiles {["in.png" := img44]} "in.png" (2, 2) [3; 2; 1; 0]
                 "out.png").1
              "in.png" (2, 2) [3; 2; 1; 0] "out.png")
    as (img & new_img & stored & Hopen & Hrun & Hw & Hh & Hmode & _ & Hfs & _).
  - vm_compute. reflexivity.
  - exists img, new_img, stored. split_and!; try done.
    rewrite Hfs. apply lookup_insert_eq.
Defined.

(** * Further properties of the code *)

(** ** valid_input *)

(** For a tile size without a zero component [valid_input] always returns:
    [True] when the tile size divides the image size, the ordering is as
    long as the number of tiles and it holds every index once, [False]
    otherwise. *)
Theorem valid_input_decides image_size tile_size ordering :
  tile_size.1 ≠ 0 → tile_size.2 ≠ 0 →
  (arrangement_ok image_size tile_size ordering →
     valid_input image_size tile_size ordering = Ok true) ∧
  (¬ arrangement_ok image_size tile_size ordering →
     valid_input image_size tile_size ordering = Ok false).
Proof.
  intros Hw Hh.
  destruct (valid_input_nonzero image_size tile_size ordering Hw Hh) as [Hiff Hno].
  split; [apply Hiff | apply Hno].
Qed.

Lemma valid_input_decides_witness :
  valid_input (6, 4) (3, 2) [2; 0; 3; 1] = Ok true ∧
  valid_input (6, 4) (3, 2) [2; 0; 3] = Ok false.
Proof.
  destruct (valid_input_decides (6, 4) (3, 2) [2; 0; 3; 1]) as [Hyes _];
    [simpl; lia | simpl; lia |].
  destruct (valid_input_decides (6, 4) (3, 2) [2; 0; 3]) as [_ Hno];
    [simpl; lia | simpl; lia |].
  split.
  - apply Hyes. unfold arrangement_ok. simpl. split_and!.
    + exists 2. reflexivity.
    + exists 2. reflexivity.
    + reflexivity.
    + apply set_eq_is_permutation. vm_compute. reflexivity.
  - apply Hno. intros (_ & _ & Hlen & _). vm_compute in Hlen. discriminate.
Defined.

(** The only exception that leaves [valid_input] is [ZeroDivisionError], and
    it does so exactly when the tile width is zero, or the tile width
    divides the image width and the tile height is zero. *)
Theorem valid_input_raises_iff iw ih tw th ordering e :
  valid_input (iw, ih) (tw, th) ordering = Raise e ↔
  e = ZeroDivisionError ∧ (tw = 0 ∨ (tw ≠ 0 ∧ iw mod tw = 0 ∧ th = 0)).
Proof.
  unfold valid_input, valid_input_try, py_mod, py_floordiv, py_assert. simpl.
  destruct (Z.eqb_spec tw 0) as [Htw|Htw]; simpl.
  { split; [intros [= <-]; auto | intros [-> _]; done]. }
  destruct (Z.eqb_spec (iw mod tw) 0) as [Hm|Hm]; simpl.
  2:{ split; [done | intros [_ [? | (_ & ? & _)]]; done]. }
  destruct (Z.eqb_spec th 0) as [Hth|Hth]; simpl.
  { split; [intros [= <-]; auto | intros [-> _]; done]. }
  assert (Hno : ¬ (e = ZeroDivisionError ∧ (tw = 0 ∨ tw ≠ 0 ∧ iw mod tw = 0 ∧ th = 0)))
    by (intros [_ [? | (_ & _ & ?)]]; done).
  destruct (ih mod th =? 0); simpl; [|split; [done | by intros ?%Hno]].
  destruct (_ =? len ordering); simpl; [|split; [done | by intros ?%Hno]].
  destruct (bool_decide _); simpl; split; (done || by intros ?%Hno).
Qed.

(** [valid_input] looks at the ordering only through its length and the
    set of its values: listing the same values in another order gives the
    same answer. *)
Theorem valid_input_permutation image_size tile_size (ordering ordering' : list Z) :
  ordering ≡ₚ ordering' →
  valid_input image_size tile_size ordering
  = valid_input image_size tile_size ordering'.
Proof.
  intros Hp.
  assert (Hlen : len ordering = len ordering').
  { unfold len. by rewrite (Permutation_length Hp). }
  assert (Hset : py_set ordering = py_set ordering').
  { unfold py_set. by apply list_to_set_perm_L. }
  unfold valid_input, valid_input_try. by rewrite Hlen, Hset.
Qed.

Lemma valid_input_permutation_witness :
  valid_input (4, 4) (2, 2) [1; 0; 2; 3] = valid_input (4, 4) (2, 2) [0; 1; 2; 3].
Proof.
  apply (valid_input_permutation (4, 4) (2, 2) [1; 0; 2; 3] [0; 1; 2; 3]).
  apply perm_swap.
Defined.

(** An accepted arrangement covers the image: the number of tiles times the
    area of a tile is the area of the image. *)
Theorem valid_input_area iw ih dx dy ordering :
  valid_input (iw, ih) (dx, dy) ordering = Ok true →
  len ordering * (dx * dy) = iw * ih.
Proof.
  intros (Hdx & Hdy & Hw & Hh & Hlen & _)%valid_input_true_iff. simpl in *.
  apply mod_0_divide in Hw; [|done]. apply mod_0_divide in Hh; [|done].
  pose proof (Z_div_exact_full_2 iw dx Hdx Hw) as Hwe.
  pose proof (Z_div_exact_full_2 ih dy Hdy Hh) as Hhe.
  rewrite Hlen. rewrite Hwe at 2. rewrite Hhe at 2. ring.
Qed.

Lemma valid_input_area_witness : len [5; 4; 3; 2; 1; 0] * (2 * 3) = 6 * 6.
Proof.
  apply (valid_input_area 6 6 2 3 [5; 4; 3; 2; 1; 0]). vm_compute. reflexivity.
Defined.

(** Tile components of opposite signs are rejected for every image with
    positive width and height, whatever the ordering: the tile count would
    be negative. *)
Theorem valid_input_opposite_signs iw ih tw th ordering :
  0 < iw → 0 < ih → tw * th < 0 →
  valid_input (iw, ih) (tw, th) ordering = Ok false.
Proof.
  intros Hiw Hih Hsign.
  apply valid_input_nonzero; simpl; [nia | nia |].
  intros (Hw & Hh & Hlen & _). simpl in *.
  apply mod_0_divide in Hw; [|nia]. apply mod_0_divide in Hh; [|nia].
  pose proof (Z_div_exact_full_2 iw tw ltac:(nia) Hw) as Hwe.
  pose proof (Z_div_exact_full_2 ih th ltac:(nia) Hh) as Hhe.
  assert (0 ≤ len ordering) by (unfold len; lia).
  assert (0 < (tw * (iw / tw)) * (th * (ih / th))) by nia.
  nia.
Qed.

Lemma valid_input_opposite_signs_witness :
  valid_input (4, 4) (-2, 2) [0; 1; 2; 3] = Ok false.
Proof.
  apply (valid_input_opposite_signs 4 4 (-2) 2 [0; 1; 2; 3]); lia.
Defined.

(** ** split_into_tiles on any positive tile size *)

Lemma range_len_cover n d : 0 < d → range_len 0 n d = Z.to_nat (steps_to_cover n d).
Proof.
  intros Hd. unfold range_len, steps_to_cover.
  destruct (Z.ltb_spec 0 d); [|lia]. f_equal. f_equal. lia.
Qed.

Lemma steps_to_cover_bounds n d :
  0 < d → 0 ≤ n →
  0 ≤ steps_to_cover n d ∧ n ≤ d * steps_to_cover n d < n + d.
Proof.
  intros Hd Hn. unfold steps_to_cover.
  pose proof (Z.div_mod (n + d - 1) d ltac:(lia)).
  pose proof (Z.mod_pos_bound (n + d - 1) d Hd).
  assert (0 ≤ (n + d - 1) / d) by (apply Z.div_pos; lia). lia.
Qed.

Lemma steps_to_cover_exact n d :
  0 < d → n mod d = 0 → steps_to_cover n d = n / d.
Proof.
  intros Hd Hm. unfold steps_to_cover. symmetry.
  apply Z.div_unique with (r := d - 1); [lia|].
  pose proof (Z.div_mod n d ltac:(lia)). lia.
Qed.

(** The list that [split_into_tiles] returns for a positive tile size. *)
Lemma split_into_tiles_positive img dx dy :
  0 < dx → 0 < dy →
  split_into_tiles img dx dy =
    Ok ((λ k : nat, tile_at img dx dy
           (cell_origin (Z.of_nat (range_len 0 (size img).1 dx)) dx dy (Z.of_nat k)))
          <$> seq 0 (range_len 0 (size img).2 dy * range_len 0 (size img).1 dx)).
Proof.
  intros Hdx Hdy. unfold split_into_tiles, py_range.
  destruct (size img) as [w h]. simpl.
  destruct (Z.eqb_spec dy 0); [lia|]. destruct (Z.eqb_spec dx 0); [lia|].
  unfold range_list. simpl.
  set (ncols := range_len 0 w dx). set (nrows := range_len 0 h dy).
  rewrite (rmap_pure _ (λ y, (λ x, tile_at img dx dy (x, y))
                               <$> ((λ k : nat, 0 + Z.of_nat k * dx) <$> seq 0 ncols))).
  2:{ intros y _. simpl. apply rmap_pure. intros x _. apply crop_tile_at; lia. }
  simpl. f_equal.
  rewrite <- list_fmap_compose.
  rewrite (list_fmap_ext _ (λ r : nat, (λ c : nat,
             tile_at img dx dy (Z.of_nat c * dx, Z.of_nat r * dy)) <$> seq 0 ncols)).
  2:{ intros _ r _. simpl. rewrite <- list_fmap_compose.
      apply list_fmap_ext. intros _ c _. simpl. do 2 f_equal. }
  rewrite (concat_rows (λ r c, tile_at img dx dy (Z.of_nat c * dx, Z.of_nat r * dy))).
  apply list_fmap_ext. intros k ? [-> Hk]%lookup_seq. simpl. unfold cell_origin.
  rewrite Nat2Z.inj_mod, Nat2Z.inj_div. reflexivity.
Qed.

(** The tiles of a split by any positive tile size, one by one. *)
Lemma split_into_tiles_cover_spec img dx dy :
  wf_image img → 0 < dx → 0 < dy →
  ∃ tiles,
    split_into_tiles img dx dy = Ok tiles ∧
    len tiles = steps_to_cover (size img).1 dx * steps_to_cover (size img).2 dy ∧
    ∀ k, 0 ≤ k < len tiles →
      let x := (k mod steps_to_cover (size img).1 dx) * dx in
      let y := (k / steps_to_cover (size img).1 dx) * dy in
      ∃ t, tiles !! Z.to_nat k = Some t ∧
           size t = (dx, dy) ∧ mode t = mode img ∧
           0 ≤ x < (size img).1 ∧ 0 ≤ y < (size img).2 ∧
           ∀ i j, data t i j =
                  if in_bounds img (x + i) (y + j) then data img (x + i) (y + j) else 0.
Proof.
  intros [Hw0 Hh0] Hdx Hdy.
  eexists. split; [by apply split_into_tiles_positive|].
  rewrite !range_len_cover by done.
  set (wc := steps_to_cover (size img).1 dx).
  set (hc := steps_to_cover (size img).2 dy).
  destruct (steps_to_cover_bounds (size img).1 dx Hdx Hw0) as [Hwc Hwb].
  destruct (steps_to_cover_bounds (size img).2 dy Hdy Hh0) as [Hhc Hhb].
  fold wc in Hwc, Hwb. fold hc in Hhc, Hhb.
  assert (Hlen : ∀ {A} (f : nat → A),
            len (f <$> seq 0 (Z.to_nat hc * Z.to_nat wc)) = wc * hc).
  { intros A f. unfold len. rewrite length_fmap, length_seq. lia. }
  split; [apply Hlen|].
  intros k. rewrite Hlen. intros Hk x y.
  exists (tile_at img dx dy (x, y)).
  assert (Hwc' : 0 < wc) by (destruct (Z.eq_dec wc 0) as [Hz|]; [rewrite Hz in Hk|]; lia).
  pose proof (Z.mod_pos_bound k wc Hwc').
  assert (0 ≤ k / wc) by (apply Z.div_pos; lia).
  assert (k / wc < hc) by (apply Z.div_lt_upper_bound; nia).
  split_and!; try done.
  - rewrite list_lookup_fmap, lookup_seq_lt by lia. simpl.
    unfold cell_origin. rewrite !Z2Nat.id by lia. reflexivity.
  - unfold x. nia.
  - unfold x. nia.
  - unfold y. nia.
  - unfold y. nia.
Qed.

(** For any positive tile size whose box the library's [crop] takes,
    dividing the image or not, [split_into_tiles] returns without raising;
    it cuts as many columns and rows as are needed to cover the image, every
    tile has the full size [(dx, dy)] and the mode of the image, and the
    part of a tile that sticks out of the image is black. *)
Theorem split_into_tiles_covers img dx dy :
  wf_image img → 0 < dx → 0 < dy → dx * dy ≤ max_crop_pixels →
  ∃ tiles,
    split_into_tiles img dx dy = Ok tiles ∧
    len tiles = steps_to_cover (size img).1 dx * steps_to_cover (size img).2 dy ∧
    ∀ k, 0 ≤ k < len tiles →
      let x := (k mod steps_to_cover (size img).1 dx) * dx in
      let y := (k / steps_to_cover (size img).1 dx) * dy in
      ∃ t, tiles !! Z.to_nat k = Some t ∧
           size t = (dx, dy) ∧ mode t = mode img ∧
           0 ≤ x < (size img).1 ∧ 0 ≤ y < (size img).2 ∧
           ∀ i j, data t i j =
                  if in_bounds img (x + i) (y + j) then data img (x + i) (y + j) else 0.
Proof. intros Hwf Hdx Hdy _. by apply split_into_tiles_cover_spec. Qed.

Lemma split_into_tiles_covers_witness :
  ∃ tiles,
    split_into_tiles img54 2 2 = Ok tiles ∧ len tiles = 6 ∧
    pixels <$> tiles
    = [ [[0; 1]; [10; 11]]; [[2; 3]; [12; 13]]; [[4; 0]; [14; 0]];
        [[20; 21]; [30; 31]]; [[22; 23]; [32; 33]]; [[24; 0]; [34; 0]] ].
Proof.
  destruct (split_into_tiles_covers img54 2 2) as (tiles & Hrun & Hlen & _).
  - split; simpl; lia.
  - lia.
  - lia.
  - unfold max_crop_pixels. lia.
  - exists tiles. split; [exact Hrun|]. split; [exact Hlen|].
    vm_compute in Hrun. injection Hrun as <-. vm_compute. reflexivity.
Defined.

Lemma range_list_nonempty n d : 0 < d → 0 < n → range_list 0 n d ≠ [].
Proof.
  intros Hd Hn. unfold range_list. rewrite range_len_cover by done.
  destruct (steps_to_cover_bounds n d Hd ltac:(lia)) as [? ?].
  assert (0 < steps_to_cover n d) by nia.
  destruct (Z.to_nat (steps_to_cover n d)) eqn:Hc; [lia|]. done.
Qed.

(** A zero tile height makes [split_into_tiles] raise the [ValueError] of
    [range]; a zero tile width does so only when the image has at least one
    row of tiles, because the inner [range] is built once per row: on an
    image of height zero the result is the empty list. *)
Theorem split_into_tiles_zero_step img dx dy :
  wf_image img →
  (dy = 0 →
     split_into_tiles img dx dy = Raise (ValueError "range() arg 3 must not be zero")) ∧
  (0 < dy → dx = 0 →
     split_into_tiles img dx dy =
       if (size img).2 =? 0 then Ok []
       else Raise (ValueError "range() arg 3 must not be zero")).
Proof.
  intros [Hw0 Hh0]. unfold split_into_tiles, py_range.
  destruct (size img) as [w h]. simpl in *. split.
  - intros ->. reflexivity.
  - intros Hdy ->. destruct (Z.eqb_spec dy 0); [lia|]. simpl.
    destruct (Z.eqb_spec h 0) as [->|Hh].
    + unfold range_list. rewrite range_len_cover by done.
      unfold steps_to_cover. rewrite Z.div_small by lia. reflexivity.
    + pose proof (range_list_nonempty h dy Hdy ltac:(lia)) as Hne.
      destruct (range_list 0 h dy); [done|]. reflexivity.
Qed.

Lemma split_into_tiles_zero_step_witness :
  split_into_tiles img44 2 0 = Raise (ValueError "range() arg 3 must not be zero") ∧
  split_into_tiles img44 0 2 = Raise (ValueError "range() arg 3 must not be zero") ∧
  split_into_tiles {| mode := "L"; size := (4, 0); data := λ _ _, 0 |} 0 2 = Ok [].
Proof.
  destruct (split_into_tiles_zero_step img44 2 0) as [H1 _]; [split; simpl; lia|].
  destruct (split_into_tiles_zero_step img44 0 2) as [_ H2]; [split; simpl; lia|].
  destruct (split_into_tiles_zero_step
              {| mode := "L"; size := (4, 0); data := λ _ _, 0 |} 0 2) as [_ H3];
    [split; simpl; lia|].
  split_and!.
  - apply H1. reflexivity.
  - rewrite H2; [reflexivity | lia | reflexivity].
  - rewrite H3; [reflexivity | lia | reflexivity].
Defined.

(** ** combine_tiles on any number of tiles *)



(** ** rearrange_tiles on unusual tile sizes *)

Section ZeroTile.

Context `{Encoders}.

(** A zero tile width, or a zero tile height under a tile width that
    divides the image width, makes [rearrange_tiles] end with the
    [ZeroDivisionError] of [valid_input], not with the [ValueError] of its
    docstring; nothing is saved. *)
Theorem rearrange_tiles_zero_tile (fs : FS) image_path tw th ordering out_path img :
  fs !! image_path = Some img →
  tw = 0 ∨ (tw ≠ 0 ∧ (size img).1 mod tw = 0 ∧ th = 0) →
  rearrange_tiles fs image_path (tw, th) ordering out_path
  = (fs, Raise ZeroDivisionError).
Proof.
  intros Hopen Hz. unfold rearrange_tiles, Image_open. rewrite Hopen.
  unfold rearrange_tiles_new_img.
  assert (Hv : valid_input (size img) (tw, th) ordering = Raise ZeroDivisionError).
  { destruct Hz as [-> | (Htw & Hm & ->)].
    - by destruct (size img).
    - by apply valid_input_zero_tile_height_raises. }
  by rewrite Hv.
Qed.

End ZeroTile.

Lemma rearrange_tiles_zero_tile_witness :
  rearrange_tiles {["in.png" := img44]} "in.png" (2, 0) [0; 1] "out.png"
  = ({["in.png" := img44]}, Raise ZeroDivisionError).
Proof.
  apply (rearrange_tiles_zero_tile {["in.png" := img44]} "in.png" 2 0 [0; 1]
           "out.png" img44).
  - reflexivity.
  - right. split_and!; [lia | reflexivity | reflexivity].
Defined.

Lemma range_list_negative_step n d : d < 0 → 0 ≤ n → range_list 0 n d = [].
Proof.
  intros Hd Hn. unfold range_list, range_len.
  destruct (Z.ltb_spec 0 d); [lia|].
  assert (Hq : (0 - n - d - 1) / - d < 1) by (apply Z.div_lt_upper_bound; lia).
  replace (Z.to_nat ((0 - n - d - 1) / - d)) with 0%nat by lia. reflexivity.
Qed.

Lemma concat_all_nil {A B} (l : list B) : concat ((λ _, @nil A) <$> l) = [].
Proof. induction l; simpl; done. Qed.

(** With a negative tile width or height a [range] counts downwards from
    zero and is empty: the split has no tiles. *)
Lemma split_into_tiles_negative img dx dy :
  wf_image img → dx ≠ 0 → dy ≠ 0 → dx < 0 ∨ dy < 0 →
  split_into_tiles img dx dy = Ok [].
Proof.
  intros [Hw0 Hh0] Hdx Hdy Hneg. unfold split_into_tiles, py_range.
  destruct (size img) as [w h]. simpl in *.
  destruct (Z.eqb_spec dy 0); [done|]. destruct (Z.eqb_spec dx 0); [done|]. simpl.
  destruct (Z.ltb_spec dy 0) as [Hdy'|Hdy'].
  - by rewrite (range_list_negative_step h dy).
  - rewrite (range_list_negative_step w dx) by lia. simpl.
    rewrite (rmap_pure _ (λ _, [])) by done. simpl.
    by rewrite concat_all_nil.
Qed.

Section NegativeTile.

Context `{Encoders}.

(** A tile size with a negative component that [valid_input] accepts makes
    [rearrange_tiles] raise [IndexError] on every non-empty ordering, since
    the split yields no tile to pick from; nothing is saved. *)
Theorem rearrange_tiles_negative_tile
    (fs : FS) image_path dx dy ordering out_path img :
  fs !! image_path = Some img → wf_image img →
  dx < 0 ∨ dy < 0 →
  valid_input (size img) (dx, dy) ordering = Ok true →
  ordering ≠ [] →
  rearrange_tiles fs image_path (dx, dy) ordering out_path = (fs, Raise IndexError).
Proof.
  intros Hopen Hwf Hneg Hvalid Hne. unfold rearrange_tiles, Image_open.
  rewrite Hopen. unfold rearrange_tiles_new_img. rewrite Hvalid. simpl.
  destruct (valid_input_true_nonzero _ _ _ Hvalid) as [Hdx Hdy]. simpl in Hdx, Hdy.
  rewrite split_into_tiles_negative by done. simpl.
  destruct ordering as [|index ordering]; [done|].
  unfold sorted_tiles. simpl.
  replace (py_index (@nil Image) index) with (@Raise Image IndexError); [done|].
  unfold py_index. rewrite lookup_nil. by destruct (_ <? 0).
Qed.

End NegativeTile.

Lemma rearrange_tiles_negative_tile_witness :
  rearrange_tiles {["in.png" := img44]} "in.png" (-2, -2) [0; 1; 2; 3] "out.png"
  = ({["in.png" := img44]}, Raise IndexError).
Proof.
  apply (rearrange_tiles_negative_tile {["in.png" := img44]} "in.png" (-2) (-2)
           [0; 1; 2; 3] "out.png" img44).
  - reflexivity.
  - split; simpl; lia.
  - left. lia.
  - vm_compute. reflexivity.
  - discriminate.
Defined.

(** ** Rearranging twice *)

(** The pixel that a second rearrangement shows at [(X, Y)]: the cell of
    [(X, Y)] shows the cell [q[c]] of the first result, which shows the cell
    [p[q[c]]] of the image. *)
Lemma rearrange_twice_pixels img dx dy p q :
  wf_image img → 0 < dx → 0 < dy →
  valid_input (size img) (dx, dy) p = Ok true →
  valid_input (size img) (dx, dy) q = Ok true →
  ∃ img1 img2,
    rearrange_tiles_new_img img (dx, dy) p = Ok img1 ∧
    rearrange_tiles_new_img img1 (dx, dy) q = Ok img2 ∧
    size img2 = size img ∧ mode img2 = mode img ∧
    ∀ X Y, 0 ≤ X < (size img).1 → 0 ≤ Y < (size img).2 →
      ∃ i j,
        q !! Z.to_nat (cell_index ((size img).1 / dx) dx dy X Y) = Some i ∧
        0 ≤ i < len q ∧
        p !! Z.to_nat i = Some j ∧
        0 ≤ j < len p ∧
        data img2 X Y =
          data img ((cell_origin ((size img).1 / dx) dx dy j).1 + X mod dx)
                   ((cell_origin ((size img).1 / dx) dx dy j).2 + Y mod dy).
Proof.
  intros Hwf Hdx Hdy Hp Hq.
  destruct (rearrange_tiles_new_img_pixels img dx dy p Hwf Hdx Hdy Hp)
    as (img1 & Hrun1 & Hsize1 & Hmode1 & Hdata1).
  destruct (rearrange_tiles_new_img_pixels img1 dx dy q)
    as (img2 & Hrun2 & Hsize2 & Hmode2 & Hdata2);
    [by unfold wf_image; rewrite Hsize1 | done | done | by rewrite Hsize1 |].
  exists img1, img2. rewrite Hsize1 in Hsize2, Hdata2.
  split_and!; [done | done | done | congruence |].
  apply valid_input_true_iff in Hq as (_ & _ & Hw & Hh & Hlenq & _).
  simpl in Hw, Hh, Hlenq.
  set (wc := (size img).1 / dx) in *. set (hc := (size img).2 / dy) in *.
  destruct Hwf as [Hw0 Hh0].
  assert (Hwc : 0 ≤ wc) by (apply Z.div_pos; lia).
  assert (Hwe : (size img).1 = dx * wc).
  { apply Z_div_exact_full_2; [lia|]. apply mod_0_divide; [lia|done]. }
  assert (Hhe : (size img).2 = dy * hc).
  { apply Z_div_exact_full_2; [lia|]. apply mod_0_divide; [lia|done]. }
  intros X Y HX HY.
  destruct (Hdata2 X Y HX HY) as (i & Hi & Hirange & ->).
  exists i.
  assert (Hwc' : 0 < wc) by nia.
  pose proof (cell_origin_in_grid wc hc dx dy i Hdx Hdy Hwc ltac:(lia)) as Hgrid.
  destruct (cell_origin wc dx dy i) as [x1 y1] eqn:Horigin. simpl in Hgrid. simpl.
  pose proof (Z.mod_pos_bound X dx Hdx). pose proof (Z.mod_pos_bound Y dy Hdy).
  assert (HX1 : 0 ≤ x1 + X mod dx < dx * wc) by lia.
  destruct (Hdata1 (x1 + X mod dx) (y1 + Y mod dy)) as (j & Hj & Hjrange & ->);
    [lia..|].
  assert (Hc : cell_index wc dx dy (x1 + X mod dx) (y1 + Y mod dy) = i).
  { pose proof (in_cell_iff wc dx dy Hdx Hdy Hwc' i (x1 + X mod dx) (y1 + Y mod dy) HX1)
      as Hcell. rewrite Horigin in Hcell. apply Hcell. lia. }
  pose proof (sub_cell_origin wc dx dy Hdx Hdy Hwc' (x1 + X mod dx) (y1 + Y mod dy) HX1)
    as Hsub. rewrite Hc, Horigin in Hsub. destruct Hsub as [Hsx Hsy].
  rewrite Hc in Hj. exists j. split_and!; try done; try lia.
  f_equal; f_equal; lia.
Qed.

(** Picking the values of a permutation at the places a second permutation
    names gives a permutation again. *)
Lemma sorted_tiles_is_permutation (p q r : list Z) :
  is_permutation p → is_permutation q → length p = length q →
  sorted_tiles p q = Ok r → is_permutation r ∧ length r = length q.
Proof.
  intros Hp Hq Hlen Hr.
  destruct (sorted_tiles_spec p q Hq (eq_sym Hlen)) as (r' & Hr' & Hlr & Hspec).
  rewrite Hr in Hr'. injection Hr' as <-.
  split; [|done]. apply set_eq_is_permutation. unfold py_set. apply set_eq.
  intros v. rewrite !elem_of_list_to_set, elem_of_range1.
  destruct Hp as [_ Hp]. destruct Hq as [_ Hq]. unfold len in *. split.
  - intros (c & Hc)%list_elem_of_lookup.
    destruct (lookup_lt_is_Some_2 q c) as [i Hi]; [apply lookup_lt_Some in Hc; lia|].
    destruct (Hspec c i Hi) as (_ & _ & Heq). rewrite Hc in Heq.
    assert (v ∈ p) by (apply list_elem_of_lookup; eauto).
    apply Hp in H. lia.
  - intros Hv.
    assert (Hvp : v ∈ p) by (apply Hp; lia).
    apply list_elem_of_lookup in Hvp as (k & Hk).
    assert (Hkq : Z.of_nat k ∈ q).
    { apply Hq. apply lookup_lt_Some in Hk. lia. }
    apply list_elem_of_lookup in Hkq as (c & Hc).
    destruct (Hspec c _ Hc) as (_ & _ & Heq).
    rewrite Nat2Z.id, Hk in Heq. apply list_elem_of_lookup. eauto.
Qed.

(** Rearranging by [p] and then by [q] gives the pixels of one
    rearrangement by the ordering [[p[i] for i in q]], which is itself
    accepted by [valid_input]. *)
Theorem rearrange_tiles_compose img dx dy p q :
  wf_image img → 0 < dx → 0 < dy →
  valid_input (size img) (dx, dy) p = Ok true →
  valid_input (size img) (dx, dy) q = Ok true →
  ∃ r img1 img2 img3,
    sorted_tiles p q = Ok r ∧
    valid_input (size img) (dx, dy) r = Ok true ∧
    rearrange_tiles_new_img img (dx, dy) p = Ok img1 ∧
    rearrange_tiles_new_img img1 (dx, dy) q = Ok img2 ∧
    rearrange_tiles_new_img img (dx, dy) r = Ok img3 ∧
    size img2 = size img3 ∧ mode img2 = mode img3 ∧
    ∀ X Y, 0 ≤ X < (size img).1 → 0 ≤ Y < (size img).2 →
      data img2 X Y = data img3 X Y.
Proof.
  intros Hwf Hdx Hdy Hp Hq.
  destruct (rearrange_twice_pixels img dx dy p q Hwf Hdx Hdy Hp Hq)
    as (img1 & img2 & Hrun1 & Hrun2 & Hsize2 & Hmode2 & Hdata2).
  pose proof Hp as Hp'. pose proof Hq as Hq'.
  apply valid_input_true_iff in Hp' as (Hnx & Hny & Hw & Hh & Hlenp & Hpermp).
  apply valid_input_true_iff in Hq' as (_ & _ & _ & _ & Hlenq & Hpermq).
  assert (Hlen : length p = length q) by (unfold len in *; lia).
  destruct (sorted_tiles_spec p q Hpermq (eq_sym Hlen)) as (r & Hr & Hlr & Hspec).
  destruct (sorted_tiles_is_permutation p q r Hpermp Hpermq Hlen Hr) as [Hpermr _].
  assert (Hvr : valid_input (size img) (dx, dy) r = Ok true).
  { apply valid_input_true_iff. unfold arrangement_ok.
    split_and!; [done..| |done]. unfold len in *. lia. }
  destruct (rearrange_tiles_new_img_pixels img dx dy r Hwf Hdx Hdy Hvr)
    as (img3 & Hrun3 & Hsize3 & Hmode3 & Hdata3).
  exists r, img1, img2, img3.
  split_and!; [done | done | done | done | done | congruence | congruence |].
  intros X Y HX HY.
  destruct (Hdata2 X Y HX HY) as (i & j & Hi & _ & Hj & _ & ->).
  destruct (Hdata3 X Y HX HY) as (k & Hk & _ & ->).
  destruct (Hspec _ i Hi) as (_ & _ & Heq).
  rewrite Hk, Hj in Heq. by injection Heq as ->.
Qed.

Lemma rearrange_tiles_compose_witness :
  ∃ r img1 img2 img3,
    sorted_tiles [1; 2; 3; 0] [3; 2; 1; 0] = Ok r ∧
    valid_input (size img44) (2, 2) r = Ok true ∧
    rearrange_tiles_new_img img44 (2, 2) [1; 2; 3; 0] = Ok img1 ∧
    rearrange_tiles_new_img img1 (2, 2) [3; 2; 1; 0] = Ok img2 ∧
    rearrange_tiles_new_img img44 (2, 2) r = Ok img3 ∧
    size img2 = size img3 ∧ mode img2 = mode img3 ∧
    ∀ X Y, 0 ≤ X < (size img44).1 → 0 ≤ Y < (size img44).2 →
      data img2 X Y = data img3 X Y.
Proof.
  apply (rearrange_tiles_compose img44 2 2 [1; 2; 3; 0] [3; 2; 1; 0]).
  - split; simpl; lia.
  - lia.
  - lia.
  - vm_compute. reflexivity.
  - vm_compute. reflexivity.
Defined.

(** Rearranging by [p] and then by an ordering [q] with [p[q[c]] = c] for
    every cell [c] gives back the pixels of the image. *)
Theorem rearrange_tiles_inverse img dx dy p q :
  wf_image img → 0 < dx → 0 < dy →
  valid_input (size img) (dx, dy) p = Ok true →
  valid_input (size img) (dx, dy) q = Ok true →
  (∀ (c : nat) i, q !! c = Some i → p !! Z.to_nat i = Some (Z.of_nat c)) →
  ∃ img1 img2,
    rearrange_tiles_new_img img (dx, dy) p = Ok img1 ∧
    rearrange_tiles_new_img img1 (dx, dy) q = Ok img2 ∧
    size img2 = size img ∧ mode img2 = mode img ∧
    ∀ X Y, 0 ≤ X < (size img).1 → 0 ≤ Y < (size img).2 →
      data img2 X Y = data img X Y.
Proof.
  intros Hwf Hdx Hdy Hp Hq Hinv.
  destruct (rearrange_twice_pixels img dx dy p q Hwf Hdx Hdy Hp Hq)
    as (img1 & img2 & Hrun1 & Hrun2 & Hsize2 & Hmode2 & Hdata2).
  exists img1, img2. split_and!; [done..|]. intros X Y HX HY.
  destruct (Hdata2 X Y HX HY) as (i & j & Hi & _ & Hj & _ & ->).
  rewrite (Hinv _ i Hi) in Hj. injection Hj as <-.
  apply valid_input_true_iff in Hq as (_ & _ & Hw & Hh & _ & _). simpl in Hw, Hh.
  set (wc := (size img).1 / dx) in *. set (hc := (size img).2 / dy) in *.
  destruct Hwf as [Hw0 Hh0].
  assert (Hwe : (size img).1 = dx * wc).
  { apply Z_div_exact_full_2; [lia|]. apply mod_0_divide; [lia|done]. }
  assert (Hhe : (size img).2 = dy * hc).
  { apply Z_div_exact_full_2; [lia|]. apply mod_0_divide; [lia|done]. }
  assert (Hwc : 0 < wc) by nia.
  pose proof (cell_index_range wc hc dx dy X Y Hdx Hdy ltac:(lia) ltac:(lia)) as Hc.
  rewrite Z2Nat.id by lia.
  pose proof (sub_cell_origin wc dx dy Hdx Hdy Hwc X Y ltac:(lia)) as Hsub.
  simpl in Hsub. simpl. f_equal; lia.
Qed.

Lemma rearrange_tiles_inverse_witness :
  ∃ img1 img2,
    rearrange_tiles_new_img img44 (2, 2) [1; 2; 3; 0] = Ok img1 ∧
    rearrange_tiles_new_img img1 (2, 2) [3; 0; 1; 2] = Ok img2 ∧
    size img2 = size img44 ∧ mode img2 = mode img44 ∧
    ∀ X Y, 0 ≤ X < (size img44).1 → 0 ≤ Y < (size img44).2 →
      data img2 X Y = data img44 X Y.
Proof.
  apply (rearrange_tiles_inverse img44 2 2 [1; 2; 3; 0] [3; 0; 1; 2]).
  - split; simpl; lia.
  - lia.
  - lia.
  - vm_compute. reflexivity.
  - vm_compute. reflexivity.
  - intros [|[|[|[|c]]]] i [= <-]; reflexivity.
Defined.

(** ** Nothing is lost *)

(** Every tile of the image shows at exactly one cell of the rearranged
    image: for a pixel [(X, Y)] of the image there is one position [c] of
    the ordering that names its cell, and the cell [c] of the result holds
    that pixel at the same place within the cell. *)
Theorem rearrange_tiles_keeps_every_tile img dx dy ordering :
  wf_image img → 0 < dx → 0 < dy →
  valid_input (size img) (dx, dy) ordering = Ok true →
  ∃ new_img,
    rearrange_tiles_new_img img (dx, dy) ordering = Ok new_img ∧
    ∀ X Y, 0 ≤ X < (size img).1 → 0 ≤ Y < (size img).2 →
      ∃ c : nat,
        ordering !! c = Some (cell_index ((size img).1 / dx) dx dy X Y) ∧
        (∀ c' : nat,
           ordering !! c' = Some (cell_index ((size img).1 / dx) dx dy X Y) → c' = c) ∧
        data new_img
          ((cell_origin ((size img).1 / dx) dx dy (Z.of_nat c)).1 + X mod dx)
          ((cell_origin ((size img).1 / dx) dx dy (Z.of_nat c)).2 + Y mod dy)
        = data img X Y.
Proof.
  intros Hwf Hdx Hdy Hvalid.
  destruct (rearrange_tiles_new_img_pixels img dx dy ordering Hwf Hdx Hdy Hvalid)
    as (new_img & Hrun & _ & _ & Hdata).
  exists new_img. split; [done|]. intros X Y HX HY.
  apply valid_input_true_iff in Hvalid as (_ & _ & Hw & Hh & Hlen & Hnd & Hel).
  simpl in Hw, Hh, Hlen.
  set (wc := (size img).1 / dx) in *. set (hc := (size img).2 / dy) in *.
  destruct Hwf as [Hw0 Hh0].
  assert (Hwe : (size img).1 = dx * wc).
  { apply Z_div_exact_full_2; [lia|]. apply mod_0_divide; [lia|done]. }
  assert (Hhe : (size img).2 = dy * hc).
  { apply Z_div_exact_full_2; [lia|]. apply mod_0_divide; [lia|done]. }
  assert (Hwc : 0 < wc) by nia.
  pose proof (cell_index_range wc hc dx dy X Y Hdx Hdy ltac:(lia) ltac:(lia)) as Hs.
  set (s := cell_index wc dx dy X Y) in *.
  assert (Hin : s ∈ ordering) by (apply Hel; lia).
  apply list_elem_of_lookup in Hin as (c & Hc).
  exists c. split; [done|]. split.
  { intros c' Hc'. by eapply NoDup_lookup. }
  assert (Hcr : 0 ≤ Z.of_nat c < wc * hc).
  { apply lookup_lt_Some in Hc. unfold len in Hlen. lia. }
  pose proof (cell_origin_in_grid wc hc dx dy (Z.of_nat c) Hdx Hdy ltac:(lia) Hcr)
    as Hgrid.
  destruct (cell_origin wc dx dy (Z.of_nat c)) as [x1 y1] eqn:Horigin.
  simpl in Hgrid. simpl.
  pose proof (Z.mod_pos_bound X dx Hdx). pose proof (Z.mod_pos_bound Y dy Hdy).
  assert (HX1 : 0 ≤ x1 + X mod dx < dx * wc) by lia.
  destruct (Hdata (x1 + X mod dx) (y1 + Y mod dy)) as (index & Hi & _ & ->);
    [lia..|].
  assert (Hci : cell_index wc dx dy (x1 + X mod dx) (y1 + Y mod dy) = Z.of_nat c).
  { pose proof (in_cell_iff wc dx dy Hdx Hdy Hwc (Z.of_nat c)
                  (x1 + X mod dx) (y1 + Y mod dy) HX1) as Hcell.
    rewrite Horigin in Hcell. apply Hcell. lia. }
  pose proof (sub_cell_origin wc dx dy Hdx Hdy Hwc (x1 + X mod dx) (y1 + Y mod dy) HX1)
    as Hsub. rewrite Hci, Horigin in Hsub. destruct Hsub as [Hsx Hsy].
  rewrite Hci, Nat2Z.id, Hc in Hi. injection Hi as <-.
  pose proof (sub_cell_origin wc dx dy Hdx Hdy Hwc X Y ltac:(lia)) as Hsub'.
  fold s in Hsub'. destruct (cell_origin wc dx dy s) as [x0 y0]. simpl.
  f_equal; lia.
Qed.

Lemma rearrange_tiles_keeps_every_tile_witness :
  ∃ new_img,
    rearrange_tiles_new_img img44 (2, 2) [3; 2; 1; 0] = Ok new_img ∧
    data new_img 2 1 = data img44 0 3.
Proof.
  destruct (rearrange_tiles_keeps_every_tile img44 2 2 [3; 2; 1; 0])
    as (new_img & Hrun & Hkeep).
  - split; simpl; lia.
  - lia.
  - lia.
  - vm_compute. reflexivity.
  - exists new_img. split; [exact Hrun|].
    vm_compute in Hrun. injection Hrun as <-. reflexivity.
Defined.

(** ** Split and combine *)

(** Cutting an image by a positive tile size no larger than the image, and
    combining the tiles unchanged on the grid that covers the image, gives
    the image again, padded with black on the right and at the bottom up to
    whole tiles; when the tile size divides the image size, nothing is
    padded. *)
Theorem split_combine_pads img dx dy :
  wf_image img → 0 < dx → 0 < dy →
  dx ≤ (size img).1 → dy ≤ (size img).2 → dx * dy ≤ max_crop_pixels →
  ∃ tiles out,
    split_into_tiles img dx dy = Ok tiles ∧
    combine_tiles tiles (steps_to_cover (size img).1 dx)
      (steps_to_cover (size img).2 dy) dx dy (mode img) = Ok out ∧
    size out = (dx * steps_to_cover (size img).1 dx,
                dy * steps_to_cover (size img).2 dy) ∧
    mode out = mode img ∧
    (size img).1 ≤ (size out).1 < (size img).1 + dx ∧
    (size img).2 ≤ (size out).2 < (size img).2 + dy ∧
    ((dx | (size img).1) → (dy | (size img).2) → size out = size img) ∧
    ∀ X Y, 0 ≤ X < (size out).1 → 0 ≤ Y < (size out).2 →
      data out X Y = if in_bounds img X Y then data img X Y else 0.
Proof.
  intros Hwf Hdx Hdy _ _ _.
  destruct (split_into_tiles_cover_spec img dx dy Hwf Hdx Hdy)
    as (tiles & Hsplit & Hlen & Htiles).
  destruct Hwf as [Hw0 Hh0].
  set (wc := steps_to_cover (size img).1 dx) in *.
  set (hc := steps_to_cover (size img).2 dy) in *.
  destruct (steps_to_cover_bounds (size img).1 dx Hdx Hw0) as [Hwc Hwb].
  destruct (steps_to_cover_bounds (size img).2 dy Hdy Hh0) as [Hhc Hhb].
  fold wc in Hwc, Hwb. fold hc in Hhc, Hhb.
  destruct (combine_tiles_pixels tiles wc hc dx dy (mode img))
    as (out & Hrun & Hsize & Hmode & Hdata); [done..| |].
  { apply Forall_lookup. intros k t Ht.
    destruct (Htiles (Z.of_nat k)) as (t' & Ht' & Hsz & _).
    { apply lookup_lt_Some in Ht. unfold len. lia. }
    rewrite Nat2Z.id, Ht in Ht'. by injection Ht' as <-. }
  exists tiles, out. rewrite Hsize. simpl.
  split_and!; try done; try lia.
  - intros Hw Hh. apply mod_0_divide in Hw; [|lia]. apply mod_0_divide in Hh; [|lia].
    unfold wc, hc. rewrite !steps_to_cover_exact by done.
    rewrite (surjective_pairing (size img)). f_equal; symmetry.
    + apply Z_div_exact_full_2; [lia|done].
    + apply Z_div_exact_full_2; [lia|done].
  - intros X Y HX HY.
    destruct (Hdata X Y HX HY) as (t & Ht & ->).
    pose proof (cell_index_range wc hc dx dy X Y Hdx Hdy HX HY) as Hc.
    destruct (Htiles (cell_index wc dx dy X Y)) as (t' & Ht' & _ & _ & _ & _ & Hpix);
      [lia|].
    rewrite Ht in Ht'. injection Ht' as <-. rewrite Hpix.
    assert (Hwc' : 0 < wc) by nia.
    pose proof (sub_cell_origin wc dx dy Hdx Hdy Hwc' X Y HX) as Hsub.
    simpl in Hsub. destruct Hsub as [Hsx Hsy].
    replace (_ + X mod dx) with X by lia.
    replace (_ + Y mod dy) with Y by lia. reflexivity.
Qed.

Lemma split_combine_pads_witness :
  ∃ tiles out,
    split_into_tiles img54 2 2 = Ok tiles ∧
    combine_tiles tiles 3 2 2 2 "RGB" = Ok out ∧
    pixels out = [ [0; 1; 2; 3; 4; 0]; [10; 11; 12; 13; 14; 0];
                   [20; 21; 22; 23; 24; 0]; [30; 31; 32; 33; 34; 0] ].
Proof.
  destruct (split_combine_pads img54 2 2) as (tiles & out & Hsplit & Hrun & _).
  - split; simpl; lia.
  - lia.
  - lia.
  - simpl. lia.
  - simpl. lia.
  - unfold max_crop_pixels. lia.
  - exists tiles, out. split; [exact Hsplit|]. split; [exact Hrun|].
    vm_compute in Hsplit. injection Hsplit as <-.
    vm_compute in Hrun. injection Hrun as <-. vm_compute. reflexivity.
Defined.

(** ** Signs and outcomes *)

Lemma mod_opp_eqb a b : b ≠ 0 → (a mod - b =? 0) = (a mod b =? 0).
Proof.
  intros Hb.
  destruct (Z.eqb_spec (a mod b) 0) as [Hm|Hm].
  - apply Z.eqb_eq. by apply Z.mod_opp_r_z.
  - apply Z.eqb_neq. intros Hm'. apply Hm.
    apply (Z.mod_opp_r_z a (- b)) in Hm'; [|lia]. by rewrite Z.opp_involutive in Hm'.
Qed.

(** Negating both components of the tile size never changes what
    [valid_input] does: the divisibility tests are the same and the two
    quotients change sign together. *)
Theorem valid_input_negated_tile iw ih tw th ordering :
  valid_input (iw, ih) (- tw, - th) ordering = valid_input (iw, ih) (tw, th) ordering.
Proof.
  unfold valid_input, valid_input_try, py_mod, py_floordiv. simpl.
  destruct (Z.eqb_spec tw 0) as [->|Htw]; [reflexivity|].
  destruct (Z.eqb_spec (- tw) 0); [lia|]. simpl.
  rewrite mod_opp_eqb by done.
  destruct (Z.eqb_spec (iw mod tw) 0) as [Hmw|]; simpl; [|reflexivity].
  destruct (Z.eqb_spec th 0) as [->|Hth]; [reflexivity|].
  destruct (Z.eqb_spec (- th) 0); [lia|]. simpl.
  rewrite mod_opp_eqb by done.
  destruct (Z.eqb_spec (ih mod th) 0) as [Hmh|]; simpl; [|reflexivity].
  rewrite !Z_div_zero_opp_r by done.
  replace (- (iw / tw) * - (ih / th)) with (iw / tw * (ih / th)) by ring.
  reflexivity.
Qed.

Section Outcome.

Context `{Encoders}.

(** For a positive tile size [rearrange_tiles], once the image is open,
    goes one of two ways: on an arrangement that is in order it builds the
    new image and ends as [save] does on it at [out_path]; on any other it
    raises the [ValueError] of its docstring and leaves the file system as it
    was. *)
Theorem rearrange_tiles_outcome (fs : FS) image_path dx dy ordering out_path img :
  fs !! image_path = Some img → wf_image img → 0 < dx → 0 < dy →
  (arrangement_ok (size img) (dx, dy) ordering →
     ∃ new_img,
       rearrange_tiles_new_img img (dx, dy) ordering = Ok new_img ∧
       rearrange_tiles fs image_path (dx, dy) ordering out_path
       = Image_save fs new_img out_path) ∧
  (¬ arrangement_ok (size img) (dx, dy) ordering →
     rearrange_tiles fs image_path (dx, dy) ordering out_path
     = (fs, Raise (ValueError "The tile size or ordering are not valid for the given image"))).
Proof.
  intros Hopen Hwf Hdx Hdy. unfold rearrange_tiles, Image_open. rewrite Hopen.
  destruct (valid_input_nonzero (size img) (dx, dy) ordering) as [Hiff Hno];
    [simpl; lia..|].
  split.
  - intros Hok%Hiff.
    destruct (rearrange_tiles_new_img_pixels img dx dy ordering Hwf Hdx Hdy Hok)
      as (new_img & Hrun & _). exists new_img. by rewrite Hrun.
  - intros [_ Hfalse]%Hno.
    apply rearrange_tiles_new_img_invalid in Hfalse. by rewrite Hfalse.
Qed.

End Outcome.

Lemma rearrange_tiles_outcome_witness :
  (∃ new_img,
     rearrange_tiles_new_img img44 (2, 2) [3; 2; 1; 0] = Ok new_img ∧
     rearrange_tiles {["in.png" := img44]} "in.png" (2, 2) [3; 2; 1; 0] "out.png"
     = (<["out.png" := new_img]> {["in.png" := img44]}, Ok tt)) ∧
  rearrange_tiles {["in.png" := img44]} "in.png" (2, 2) [3; 2; 1; 1] "out.png"
  = ({["in.png" := img44]},
     Raise (ValueError "The tile size or ordering are not valid for the given image")).
Proof.
  assert (Hwf : wf_image img44) by (split; simpl; lia).
  assert (Hopen : ({["in.png" := img44]} : FS) !! "in.png" = Some img44)
    by reflexivity.
  destruct (rearrange_tiles_outcome {["in.png" := img44]} "in.png" 2 2 [3; 2; 1; 0]
              "out.png" img44 Hopen Hwf ltac:(lia) ltac:(lia)) as [Hyes _].
  destruct (rearrange_tiles_outcome {["in.png" := img44]} "in.png" 2 2 [3; 2; 1; 1]
              "out.png" img44 Hopen Hwf ltac:(lia) ltac:(lia)) as [_ Hno].
  split.
  - destruct Hyes as (new_img & Hrun & Hcall).
    + unfold arrangement_ok. simpl. split_and!.
      * exists 2. reflexivity.
      * exists 2. reflexivity.
      * reflexivity.
      * exact is_permutation_3210.
    + exists new_img. split; [exact Hrun|]. rewrite Hcall.
      vm_compute in Hrun. injection Hrun as <-. reflexivity.
  - apply Hno. intros (_ & _ & _ & Hnd & _).
    apply NoDup_cons in Hnd as [_ Hnd]. apply NoDup_cons in Hnd as [_ Hnd].
    apply NoDup_cons in Hnd as [Hin _]. apply Hin. left.
Defined.
